(** * Contacts: import, merge and booking statistics tasks

    A shallow embedding of [backend/contacts/tasks.py] and the properties
    its specification states about it.

    The tasks for the import, the merge, the statistics of one contact and
    the contact of a booking are functions from a world (the database
    tables they touch, plus a schedule of storage faults) to a new world
    and the dictionary the task returns.  Python exceptions are values of type
    [exn]; a task body runs in the monad [Task], in which the world
    survives an exception: the tasks open no transaction, so every ORM
    write is committed when it is made.

    Two things that the tasks rely on are no part of their sources.  The
    case mappings of [str.lower] beyond the ASCII range are a parameter,
    [Py.Unicode], and the properties of an import hold for every value of
    it.  The declarations of [models.py] are not among the sources
    either: the tables carry the attributes of section 3 of the
    specification, and the comments of [contact_save] and
    [contact_delete_id_in] say how a write of [None] and a deletion are
    read. *)

From Stdlib Require Import Strings.Ascii Strings.String ZArith Lia Permutation.
From stdpp Require Import gmap strings list fin_maps pretty.

Local Open Scope Z_scope.
Local Open Scope string_scope.

(** ** Python strings *)

(** A [str] is modelled by its UTF-8 encoding, a string of bytes.  The
    tests, splits and searches of the tasks are for ASCII characters and
    for whole strings; in UTF-8 the byte of an ASCII character occurs in no
    other character and no character starts inside another one, so these
    are made on the bytes. *)
Module Py.

(** [str.isspace] of a character of the ASCII range: tab, line feed,
    vertical tab, form feed, carriage return, the four separators
    0x1c-0x1f and space. *)
Definition isspace (a : ascii) : bool :=
  match a with
  | "009" | "010" | "011" | "012" | "013"
  | "028" | "029" | "030" | "031" | " " => true
  | _ => false
  end%char.

(** [str.isspace] of the characters of two bytes: U+0085 is 194 133 and
    U+00A0 is 194 160. *)
Definition isspace2 (a b : ascii) : bool :=
  (N_of_ascii a =? 194)%N && ((N_of_ascii b =? 133) || (N_of_ascii b =? 160))%N.

(** [str.isspace] of the characters of three bytes: U+1680 is 225 154 128,
    U+2000 to U+200A are 226 128 128 to 226 128 138, U+2028, U+2029 and
    U+202F are 226 128 168, 169 and 175, U+205F is 226 129 159 and U+3000
    is 227 128 128.  No other character is whitespace. *)
Definition isspace3 (a b c : ascii) : bool :=
  let '(a, b, c) := (N_of_ascii a, N_of_ascii b, N_of_ascii c) in
  ((a =? 225) && (b =? 154) && (c =? 128)
   || (a =? 226) && (b =? 128)
      && ((128 <=? c) && (c <=? 138) || (c =? 168) || (c =? 169) || (c =? 175))
   || (a =? 226) && (b =? 129) && (c =? 159)
   || (a =? 227) && (b =? 128) && (c =? 128))%N.

(** What follows the whitespace character at the head of [s], if there is
    one. *)
Definition after_space (s : string) : option string :=
  match s with
  | "" => None
  | String a s1 =>
      if isspace a then Some s1
      else match s1 with
           | "" => None
           | String b s2 =>
               if isspace2 a b then Some s2
               else match s2 with
                    | "" => None
                    | String c s3 => if isspace3 a b c then Some s3 else None
                    end
           end
  end.

(** [s.lstrip()] *)
Fixpoint lstrip (s : string) : string :=
  match s with
  | "" => ""
  | String a s1 =>
      if isspace a then lstrip s1
      else match s1 with
           | "" => s
           | String b s2 =>
               if isspace2 a b then lstrip s2
               else match s2 with
                    | "" => s
                    | String c s3 => if isspace3 a b c then lstrip s3 else s
                    end
           end
  end.

(** [s] is empty or whitespace throughout. *)
Definition blank (s : string) : bool :=
  match lstrip s with "" => true | _ => false end.

(** [s.rstrip()]: [s] up to where nothing but whitespace is left. *)
Fixpoint rstrip (s : string) : string :=
  match s with
  | "" => ""
  | String a s' => if blank s then "" else String a (rstrip s')
  end.

(** [s.strip()] *)
Definition strip (s : string) : string := rstrip (lstrip s).

(** [str.lower] of a character of the ASCII range. *)
Definition lower_char (a : ascii) : ascii :=
  let n := N_of_ascii a in
  if ((65 <=? n) && (n <=? 90))%N then ascii_of_N (n + 32) else a.

(** [str.lower] of text of the ASCII range. *)
Fixpoint lower_ascii (s : string) : string :=
  match s with
  | "" => ""
  | String a s' => String (lower_char a) (lower_ascii s')
  end.

(** [s.isascii()] *)
Fixpoint isascii (s : string) : bool :=
  match s with
  | "" => true
  | String a s' => (N_of_ascii a <? 128)%N && isascii s'
  end.

(** What [str.lower] makes of text that has a character beyond the ASCII
    range is read from the Unicode character database of the interpreter,
    which is no part of the sources: it is a parameter of the tasks that
    lower-case text. *)
Class Unicode := unicode_lower : string → string.

(** [s.lower()] *)
Definition lower `{!Unicode} (s : string) : string :=
  if isascii s then lower_ascii s else unicode_lower s.

(** [c in s] for a one-character [c]. *)
Fixpoint contains (c : ascii) (s : string) : bool :=
  match s with
  | "" => false
  | String a s' => if decide (a = c) then true else contains c s'
  end.

(** [s.count(c)] for a one-character [c]. *)
Fixpoint count (c : ascii) (s : string) : nat :=
  match s with
  | "" => O
  | String a s' => if decide (a = c) then S (count c s') else count c s'
  end.

(** [s.split(c)]: never empty, one more piece than occurrences of [c]. *)
Fixpoint split (c : ascii) (s : string) : list string :=
  match s with
  | "" => [""]
  | String a s' =>
      if decide (a = c) then "" :: split c s'
      else match split c s' with
           | h :: t => String a h :: t
           | [] => [String a ""]
           end
  end.

(** [s.split(c, 1)]: cut at the first occurrence of [c] only. *)
Fixpoint split1 (c : ascii) (s : string) : list string :=
  match s with
  | "" => [""]
  | String a s' =>
      if decide (a = c) then [""; s']
      else match split1 c s' with
           | h :: t => String a h :: t
           | [] => [String a ""]
           end
  end.

(** [l[-1]] of a list of strings known to be non-empty. *)
Definition last_piece (l : list string) : string := List.last l "".

Fixpoint startswith (p s : string) : bool :=
  match p, s with
  | "", _ => true
  | String a p', String b s' => if decide (a = b) then startswith p' s' else false
  | String _ _, "" => false
  end.

(** [needle in hay] for strings. *)
Fixpoint substring_of (needle hay : string) : bool :=
  startswith needle hay ||
  match hay with
  | "" => false
  | String _ hay' => substring_of needle hay'
  end.

(** Truth value of a string. *)
Definition nonempty (s : string) : bool :=
  match s with "" => false | _ => true end.

(** A text attribute or dictionary value: a [str] or [None]. *)
Definition text := option string.

(** Truth value of a [str]-or-[None]. *)
Definition truthy (v : text) : bool :=
  match v with Some s => nonempty s | None => false end.

(** [v or ''] *)
Definition or_empty (v : text) : string :=
  match v with Some s => if nonempty s then s else "" | None => "" end.

End Py.

(** ** Data model

    The models are declared in [models.py] and in the [users] and [events]
    applications, none of which is among the sources at hand; the tables
    below carry the attributes that [tasks.py] reads and writes. *)

(** Modelled from the spec: the model [Contact] of [models.py], with the
    attributes of section 3.  A text attribute holds what the task assigns
    to it, a [str] or [None]; a timestamp is a number.  The primary key of
    a row is its key in the table. *)
Module Contact.
Record t := mk {
  organizer : Z;
  first_name : Py.text;
  last_name : Py.text;
  email : string;
  phone : Py.text;
  company : Py.text;
  job_title : Py.text;
  notes : Py.text;
  tags : list string;
  total_bookings : Z;
  last_booking_date : option Z
}.

Definition set_first_name v c :=
  mk (organizer c) v (last_name c) (email c) (phone c) (company c)
     (job_title c) (notes c) (tags c) (total_bookings c) (last_booking_date c).
Definition set_last_name v c :=
  mk (organizer c) (first_name c) v (email c) (phone c) (company c)
     (job_title c) (notes c) (tags c) (total_bookings c) (last_booking_date c).
Definition set_phone v c :=
  mk (organizer c) (first_name c) (last_name c) (email c) v (company c)
     (job_title c) (notes c) (tags c) (total_bookings c) (last_booking_date c).
Definition set_company v c :=
  mk (organizer c) (first_name c) (last_name c) (email c) (phone c) v
     (job_title c) (notes c) (tags c) (total_bookings c) (last_booking_date c).
Definition set_job_title v c :=
  mk (organizer c) (first_name c) (last_name c) (email c) (phone c) (company c)
     v (notes c) (tags c) (total_bookings c) (last_booking_date c).
Definition set_notes v c :=
  mk (organizer c) (first_name c) (last_name c) (email c) (phone c) (company c)
     (job_title c) v (tags c) (total_bookings c) (last_booking_date c).
Definition set_tags v c :=
  mk (organizer c) (first_name c) (last_name c) (email c) (phone c) (company c)
     (job_title c) (notes c) v (total_bookings c) (last_booking_date c).
Definition set_total_bookings v c :=
  mk (organizer c) (first_name c) (last_name c) (email c) (phone c) (company c)
     (job_title c) (notes c) (tags c) v (last_booking_date c).
Definition set_last_booking_date v c :=
  mk (organizer c) (first_name c) (last_name c) (email c) (phone c) (company c)
     (job_title c) (notes c) (tags c) (total_bookings c) v.

Global Instance eq_dec : EqDecision t.
Proof. solve_decision. Defined.
End Contact.

(** Modelled from the spec: the model [ContactInteraction] of [models.py].
    [description] and [metadata] are renderings of the name and duration of
    the event type and of the start time, which are kept as they are. *)
Module ContactInteraction.
Record t := mk {
  contact : Z;
  organizer : Z;
  interaction_type : string;
  booking : Z;
  event_type : string;
  duration : Z;
  start_time : Z
}.

Definition set_contact v i :=
  mk v (organizer i) (interaction_type i) (booking i) (event_type i)
     (duration i) (start_time i).

Global Instance eq_dec : EqDecision t.
Proof. solve_decision. Defined.
End ContactInteraction.

(** Modelled from the spec: the model [Booking] of the [events]
    application, with the attributes of the booking source contract of
    section 6, the name and duration of its event type among them. *)
Module Booking.
Record t := mk {
  organizer : Z;
  invitee_name : string;
  invitee_email : string;
  invitee_phone : string;
  start_time : Z;
  status : string;
  event_type_name : string;
  event_type_duration : Z
}.
End Booking.

(** The tables; of [User] the primary keys only. *)
Record DB := mkDB {
  users : gset Z;
  contacts : gmap Z Contact.t;
  interactions : list ContactInteraction.t;
  bookings : gmap Z Booking.t
}.

Definition with_contacts (f : gmap Z Contact.t → gmap Z Contact.t) (d : DB) : DB :=
  mkDB (users d) (f (contacts d)) (interactions d) (bookings d).

Definition with_interactions
    (f : list ContactInteraction.t → list ContactInteraction.t) (d : DB) : DB :=
  mkDB (users d) (contacts d) (f (interactions d)) (bookings d).

(** The world of a task: the tables, and the storage fault to come, if any:
    [Some n] says that the storage answers [n] more calls and raises on
    the one after; [None] that it raises no more. *)
Record World := mkWorld {
  db : DB;
  outage : option nat
}.

(** ** Exceptions and the task monad *)

Inductive exn :=
| NameError (name : string)
| AttributeError (message : string)
| DoesNotExist (model : string)
| MultipleObjectsReturned (model : string)
| OperationalError (message : string).

(** [str(e)] *)
Definition str (e : exn) : string :=
  match e with
  | NameError n => "name '" +:+ n +:+ "' is not defined"
  | AttributeError m => m
  | DoesNotExist m => m +:+ " matching query does not exist."
  | MultipleObjectsReturned m => "get() returned more than one " +:+ m
  | OperationalError m => m
  end.

Definition Task (A : Type) : Type := World → World * (exn + A).

Definition ret {A} (a : A) : Task A := λ w, (w, inr a).

Definition raise {A} (e : exn) : Task A := λ w, (w, inl e).

Definition bind {A B} (m : Task A) (k : A → Task B) : Task B :=
  λ w, match m w with
       | (w', inr a) => k a w'
       | (w', inl e) => (w', inl e)
       end.

(** [try: m / except Exception as e: h e] *)
Definition try_except {A} (m : Task A) (h : exn → Task A) : Task A :=
  λ w, match m w with
       | (w', inr a) => (w', inr a)
       | (w', inl e) => h e w'
       end.

Global Instance exn_eq_dec : EqDecision exn.
Proof. solve_decision. Defined.

Declare Scope task_scope.
Delimit Scope task_scope with task.
Notation "x <- m ;; k" := (bind m (λ x, k))
  (at level 100, m at next level, right associativity) : task_scope.
Notation "m ;; k" := (bind m (λ _, k))
  (at level 100, right associativity) : task_scope.
Local Open Scope task_scope.

(** ** The ORM calls the tasks make *)

(** Every call reaches the storage, which may raise. *)
Definition storage_call : Task unit :=
  λ w, match outage w with
       | None => (w, inr tt)
       | Some (S n) => (mkWorld (db w) (Some n), inr tt)
       | Some O => (mkWorld (db w) None, inl (OperationalError "server closed the connection"))
       end.

Definition query {A} (f : DB → exn + A) : Task A :=
  storage_call ;; λ w, (w, f (db w)).

Definition execute (f : DB → DB) : Task unit :=
  storage_call ;; λ w, (mkWorld (f (db w)) (outage w), inr tt).

(** The row with the least primary key: [.first()] of an unordered
    queryset. *)
Definition first_by_pk {A} (l : list (Z * A)) : option (Z * A) :=
  foldr (λ x acc, match acc with
                  | Some y => if (x.1 <? y.1)%Z then Some x else Some y
                  | None => Some x
                  end) None l.

(** The key the next [INSERT] into a table receives. *)
Definition next_pk {A} (m : gmap Z A) : Z :=
  (foldr Z.max 0 (map fst (map_to_list m)) + 1)%Z.

(** [User.objects.get(id=organizer_id)] *)
Definition user_get (organizer_id : Z) : Task Z :=
  query (λ d, if decide (organizer_id ∈ users d) then inr organizer_id
              else inl (DoesNotExist "User")).

(** [Contact.objects.get(id=contact_id)] *)
Definition contact_get (contact_id : Z) : Task Contact.t :=
  query (λ d, match contacts d !! contact_id with
              | Some c => inr c
              | None => inl (DoesNotExist "Contact")
              end).

(** The rows of [Contact.objects.filter(organizer=organizer, email=email)]. *)
Definition contacts_of (organizer : Z) (email : string) (d : DB) : list (Z * Contact.t) :=
  filter (λ x, Contact.organizer x.2 = organizer ∧ Contact.email x.2 = email)
         (map_to_list (contacts d)).

(** [Contact.objects.filter(organizer=organizer, email=email).first()] *)
Definition contact_filter_first (organizer : Z) (email : string)
    : Task (option (Z * Contact.t)) :=
  query (λ d, inr (first_by_pk (contacts_of organizer email d))).

(** The rows of [Contact.objects.filter(id__in=ids)]. *)
Definition contacts_in (ids : list Z) (d : DB) : list (Z * Contact.t) :=
  filter (λ x, x.1 ∈ ids) (map_to_list (contacts d)).

(** Evaluating [Contact.objects.filter(id__in=ids)], as the [for] loop over
    it does. *)
Definition contact_filter_id_in (ids : list Z) : Task (list (Z * Contact.t)) :=
  query (λ d, inr (contacts_in ids d)).

(** [contact.save()] for the contact fetched under key [pk].  The row is
    stored as the object holds it.  Whether a text column takes [None] is
    declared in [models.py]; the tasks assign [None] to one only from a
    line of an import that is shorter than its header, and the properties
    that need that write to go through are stated for rows without such a
    cell ([complete]). *)
Definition contact_save (pk : Z) (c : Contact.t) : Task unit :=
  execute (with_contacts (insert pk c)).

(** [Contact.objects.create(...)], under the same reading of [None] as
    [contact_save]. *)
Definition contact_create (c : Contact.t) : Task Z :=
  storage_call ;;
  λ w, let pk := next_pk (contacts (db w)) in
       (mkWorld (with_contacts (insert pk c) (db w)) (outage w), inr pk).

(** [Contact.objects.filter(id__in=ids).delete()].  What becomes of an
    interaction whose contact is deleted is declared on the foreign key, in
    [models.py]; the rows of [ContactInteraction] are left as they are.
    After the loop of a merge the interactions of the duplicates are on the
    primary, so that the deletion meets an interaction only when the
    primary is itself among [ids]; what a merge does to the interactions is
    stated for a primary that is not. *)
Definition contact_delete_id_in (ids : list Z) : Task unit :=
  execute (with_contacts (filter (λ x, x.1 ∉ ids))).

(** [ContactInteraction.objects.filter(contact=duplicate).update(contact=primary_contact)] *)
Definition repoint (duplicate primary : Z) (i : ContactInteraction.t) : ContactInteraction.t :=
  if decide (ContactInteraction.contact i = duplicate)
  then ContactInteraction.set_contact primary i else i.

Definition interaction_update_contact (duplicate primary : Z) : Task unit :=
  execute (with_interactions (map (repoint duplicate primary))).

(** [ContactInteraction.objects.create(...)] *)
Definition interaction_create (i : ContactInteraction.t) : Task unit :=
  execute (with_interactions (λ l, (l ++ [i])%list)).

(** [Booking.objects.get(id=booking_id)] *)
Definition booking_get (booking_id : Z) : Task Booking.t :=
  query (λ d, match bookings d !! booking_id with
              | Some b => inr b
              | None => inl (DoesNotExist "Booking")
              end).

(** The rows of [Booking.objects.filter(organizer=organizer,
    invitee_email=email, status='confirmed')]. *)
Definition confirmed_bookings (organizer : Z) (email : string) (d : DB)
    : list (Z * Booking.t) :=
  filter (λ x, Booking.organizer x.2 = organizer
               ∧ Booking.invitee_email x.2 = email
               ∧ Booking.status x.2 = "confirmed")
         (map_to_list (bookings d)).

(** [bookings.count()] *)
Definition booking_count (organizer : Z) (email : string) : Task Z :=
  query (λ d, inr (Z.of_nat (length (confirmed_bookings organizer email d)))).

(** The row with the greatest start time: [.order_by('-start_time').first()]. *)
Definition latest_by_start (l : list (Z * Booking.t)) : option Booking.t :=
  foldr (λ x acc, match acc with
                  | Some b => if (Booking.start_time b <? Booking.start_time x.2)%Z
                              then Some x.2 else Some b
                  | None => Some x.2
                  end) None l.

Definition booking_latest (organizer : Z) (email : string) : Task (option Booking.t) :=
  query (λ d, inr (latest_by_start (confirmed_bookings organizer email d))).

(** ** Values and result dictionaries *)

Inductive value :=
| VStr (s : string)
| VInt (n : Z)
| VBool (b : bool)
| VList (l : list string).

Global Instance value_eq_dec : EqDecision value.
Proof. solve_decision. Defined.

(** [len(l)] *)
Definition len {A} (l : list A) : Z := Z.of_nat (length l).

(** The dictionary the [except] clauses of a task return. *)
Definition error_result (message : string) : gmap string value :=
  {[ "status" := VStr "error"; "message" := VStr message ]}.

(** The shape the tasks share:
    [try: body / except Model.DoesNotExist: ... / except Exception as e: ...].
    The first handler returns [not_found], the second [failed] followed by
    [str(e)]. *)
Definition try_task (body : Task (gmap string value))
    (model not_found failed : string) (w : World) : World * gmap string value :=
  match body w with
  | (w', inr result) => (w', result)
  | (w', inl e) =>
      if decide (e = DoesNotExist model) then (w', error_result not_found)
      else (w', error_result (failed +:+ str e))
  end.

(** The line feed of a Python string literal. *)
Definition LF : string := String "010" "".

(** ** [process_contact_import] *)

(** A row as [csv.DictReader] yields it: the header's column names, each
    bound to the text of the field, or to [None] when the line has fewer
    fields than the header.  The task is modelled from the rows that the
    reader yields for [csv_content]. *)
Abbreviation Row := (gmap string Py.text).

(** [row.get(key, default)] *)
Definition get (row : Row) (key : string) (dflt : Py.text) : Py.text :=
  default dflt (row !! key).

(** [v.strip()] where [v] may be [None]. *)
Definition strip (v : Py.text) : Task string :=
  match v with
  | Some s => ret (Py.strip s)
  | None => raise (AttributeError "'NoneType' object has no attribute 'strip'")
  end.

(** The name [row_num] is read four times in the task and bound nowhere:
    it is no parameter, no local, no module global and no builtin. *)
Definition row_num : Task Z := raise (NameError "row_num").

(** [[tag.strip() for tag in tags_str.split(',') if tag.strip()]] *)
Definition parse_tags (tags_str : string) : list string :=
  filter (λ tag, Py.nonempty tag = true) (map Py.strip (Py.split "," tags_str)).

(** The local variables of the loop. *)
Record Counters := mkCounters {
  created_count : Z;
  updated_count : Z;
  skipped_count : Z;
  errors : list string
}.

(** [errors.append(msg); skipped_count += 1] *)
Definition reject (msg : string) (st : Counters) : Counters :=
  mkCounters (created_count st) (updated_count st) (skipped_count st + 1)
             (errors st ++ [msg])%list.

(** Lines 41-84: the row once its email is accepted. *)
Definition reconcile (organizer : Z) (skip_duplicates update_existing : bool)
    (row : Row) (email : string) (st : Counters) : Task Counters :=
  existing_contact <- contact_filter_first organizer email ;;
  match existing_contact with
  | Some (pk, existing) =>
      if update_existing then
        let c := Contact.set_first_name (get row "first_name" (Contact.first_name existing)) existing in
        let c := Contact.set_last_name (get row "last_name" (Contact.last_name c)) c in
        let c := Contact.set_phone (get row "phone" (Contact.phone c)) c in
        let c := Contact.set_company (get row "company" (Contact.company c)) c in
        let c := Contact.set_job_title (get row "job_title" (Contact.job_title c)) c in
        let c := Contact.set_notes (get row "notes" (Contact.notes c)) c in
        let tags_str := get row "tags" (Some "") in
        let c := if Py.truthy tags_str
                 then Contact.set_tags (parse_tags (Py.or_empty tags_str)) c
                 else c in
        contact_save pk c ;;
        ret (mkCounters (created_count st) (updated_count st + 1)
                        (skipped_count st) (errors st))
      else if skip_duplicates then
        ret (mkCounters (created_count st) (updated_count st)
                        (skipped_count st + 1) (errors st))
      else ret st
  | None =>
      let tags_str := get row "tags" (Some "") in
      let tags := if Py.truthy tags_str then parse_tags (Py.or_empty tags_str) else [] in
      contact_create
        (Contact.mk organizer
           (get row "first_name" (Some "")) (get row "last_name" (Some ""))
           email
           (get row "phone" (Some "")) (get row "company" (Some ""))
           (get row "job_title" (Some "")) (get row "notes" (Some ""))
           tags 0 None) ;;
      ret (mkCounters (created_count st + 1) (updated_count st)
                      (skipped_count st) (errors st))
  end.

(** The body of the inner [try], lines 29-84. *)
Definition import_row `{!Py.Unicode} (organizer : Z) (skip_duplicates update_existing : bool)
    (row : Row) (st : Counters) : Task Counters :=
  stripped <- strip (get row "email" (Some "")) ;;
  let email := Py.lower stripped in
  if negb (Py.nonempty email) then
    n <- row_num ;;
    ret (reject ("Row " +:+ pretty n +:+ ": Email is required") st)
  else if negb (Py.contains "@" email)
          || negb (Py.contains "." (Py.last_piece (Py.split "@" email))) then
    n <- row_num ;;
    ret (reject ("Row " +:+ pretty n +:+ ": Invalid email format: " +:+ email) st)
  else reconcile organizer skip_duplicates update_existing row email st.

(** The inner [except Exception as e], lines 85-88: the message for the
    logger is formatted first. *)
Definition import_row_except (e : exn) (st : Counters) : Task Counters :=
  n <- row_num ;;
  let logged := "Error processing row " +:+ pretty n +:+ ": " +:+ str e in
  n' <- row_num ;;
  ret (reject ("Row " +:+ pretty n' +:+ ": " +:+ str e) st).

(** [for row in reader: try: ... except Exception as e: ...] *)
Fixpoint import_rows `{!Py.Unicode} (organizer : Z) (skip_duplicates update_existing : bool)
    (rows : list Row) (st : Counters) : Task Counters :=
  match rows with
  | [] => ret st
  | row :: rest =>
      st' <- try_except (import_row organizer skip_duplicates update_existing row st)
                        (λ e, import_row_except e st) ;;
      import_rows organizer skip_duplicates update_existing rest st'
  end.

(** Lines 90-103. *)
Definition import_result (st : Counters) : gmap string value :=
  let message :=
    "Import completed: " +:+ pretty (created_count st) +:+ " created, "
    +:+ pretty (updated_count st) +:+ " updated, "
    +:+ pretty (skipped_count st) +:+ " skipped" in
  let result : gmap string value :=
    {[ "status" := VStr "success";
       "message" := VStr message;
       "created_count" := VInt (created_count st);
       "updated_count" := VInt (updated_count st);
       "skipped_count" := VInt (skipped_count st);
       "errors" := VList (take 10 (errors st)) ]} in
  match errors st with
  | [] => result
  | _ :: _ =>
      <[ "message" := VStr (message +:+ " with " +:+ pretty (len (errors st)) +:+ " errors") ]>
        (<[ "status" := VStr "partial_success" ]> result)
  end.

(** The body of the outer [try], lines 15-103. *)
Definition import_body `{!Py.Unicode} (organizer_id : Z) (rows : list Row)
    (skip_duplicates update_existing : bool) : Task (gmap string value) :=
  organizer <- user_get organizer_id ;;
  st <- import_rows organizer skip_duplicates update_existing rows (mkCounters 0 0 0 []) ;;
  ret (import_result st).

Definition process_contact_import `{!Py.Unicode} (organizer_id : Z) (rows : list Row)
    (skip_duplicates update_existing : bool) (w : World)
    : World * gmap string value :=
  try_task (import_body organizer_id rows skip_duplicates update_existing)
    "User" ("Organizer " +:+ pretty organizer_id +:+ " not found")
    "Error importing contacts: " w.

(** ** [merge_contact_data] *)

(** The variables the loop over the duplicates updates. *)
Record Merge := mkMerge {
  primary_contact : Contact.t;
  total_bookings : Z;
  latest_booking_date : option Z
}.

(** Lines 135-137: [latest_booking_date] after one duplicate. *)
Definition later_date (latest duplicate_date : option Z) : option Z :=
  match duplicate_date with
  | Some d =>
      match latest with
      | None => Some d
      | Some l => if (l <? d)%Z then Some d else Some l
      end
  | None => latest
  end.

(** Lines 143-146: the tags of the primary after one duplicate.  The
    union is a Python [set]; its listing order is the set's own. *)
Definition merge_tags (duplicate primary : Contact.t) : Contact.t :=
  match Contact.tags duplicate with
  | [] => primary
  | duplicate_tags =>
      let primary_tags : gset string := list_to_set (Contact.tags primary) in
      Contact.set_tags (elements (primary_tags ∪ list_to_set duplicate_tags)) primary
  end.

(** Lines 149-153: the notes of the primary after one duplicate. *)
Definition merge_notes (duplicate primary : Contact.t) : Contact.t :=
  if Py.truthy (Contact.notes duplicate)
     && negb (Py.substring_of (Py.or_empty (Contact.notes duplicate))
                              (Py.or_empty (Contact.notes primary)))
  then
    if Py.truthy (Contact.notes primary)
    then Contact.set_notes
           (Some (Py.or_empty (Contact.notes primary)
                  +:+ LF +:+ LF +:+ "--- Merged from " +:+ Contact.email duplicate
                  +:+ " ---" +:+ LF +:+ Py.or_empty (Contact.notes duplicate)))
           primary
    else Contact.set_notes (Contact.notes duplicate) primary
  else primary.

(** The body of the loop, lines 133-153, for the duplicate fetched under
    key [pk]. *)
Definition merge_duplicate (primary_pk : Z) (dup : Z * Contact.t) (m : Merge)
    : Task Merge :=
  let '(pk, duplicate) := dup in
  let total := (total_bookings m + Contact.total_bookings duplicate)%Z in
  let latest := later_date (latest_booking_date m) (Contact.last_booking_date duplicate) in
  interaction_update_contact pk primary_pk ;;
  let primary := merge_tags duplicate (primary_contact m) in
  let primary := merge_notes duplicate primary in
  ret (mkMerge primary total latest).

(** [for duplicate in duplicate_contacts: ...] *)
Fixpoint merge_duplicates (primary_pk : Z) (duplicates : list (Z * Contact.t))
    (m : Merge) : Task Merge :=
  match duplicates with
  | [] => ret m
  | dup :: rest =>
      m' <- merge_duplicate primary_pk dup m ;;
      merge_duplicates primary_pk rest m'
  end.

(** Lines 156-158: the primary as it is saved. *)
Definition merged_primary (m : Merge) : Contact.t :=
  let primary :=
    Contact.set_total_bookings
      (Contact.total_bookings (primary_contact m) + total_bookings m)%Z
      (primary_contact m) in
  match latest_booking_date m with
  | Some d => Contact.set_last_booking_date (Some d) primary
  | None => primary
  end.

(** Lines 127-168, once the primary and the duplicates are fetched. *)
Definition merge_into (primary_pk : Z) (primary : Contact.t)
    (duplicates : list (Z * Contact.t)) (duplicate_contact_ids : list Z)
    : Task (gmap string value) :=
  m <- merge_duplicates primary_pk duplicates
         (mkMerge primary 0 (Contact.last_booking_date primary)) ;;
  let primary := merged_primary m in
  contact_save primary_pk primary ;;
  contact_delete_id_in duplicate_contact_ids ;;
  ret ({[ "status" := VStr "success";
          "message" := VStr ("Merged " +:+ pretty (len duplicate_contact_ids)
                             +:+ " contacts into " +:+ Contact.email primary);
          "merged_count" := VInt (len duplicate_contact_ids) ]} : gmap string value).

(** The body of the [try], lines 122-168. *)
Definition merge_body (primary_contact_id : Z) (duplicate_contact_ids : list Z)
    : Task (gmap string value) :=
  primary <- contact_get primary_contact_id ;;
  duplicates <- contact_filter_id_in duplicate_contact_ids ;;
  merge_into primary_contact_id primary duplicates duplicate_contact_ids.

Definition merge_contact_data (primary_contact_id : Z) (duplicate_contact_ids : list Z)
    (w : World)
    : World * gmap string value :=
  try_task (merge_body primary_contact_id duplicate_contact_ids)
    "Contact" ("Primary contact " +:+ pretty primary_contact_id +:+ " not found")
    "Error merging contacts: " w.

(** ** [update_single_contact_booking_stats] *)

(** The body of the [try], lines 187-209. *)
Definition update_stats_body (contact_id : Z) : Task (gmap string value) :=
  contact <- contact_get contact_id ;;
  total <- booking_count (Contact.organizer contact) (Contact.email contact) ;;
  last_booking <- booking_latest (Contact.organizer contact) (Contact.email contact) ;;
  let contact := Contact.set_total_bookings total contact in
  let contact := Contact.set_last_booking_date (Booking.start_time <$> last_booking) contact in
  contact_save contact_id contact ;;
  ret ({[ "status" := VStr "success";
          "message" := VStr ("Updated booking stats for " +:+ Contact.email contact);
          "total_bookings" := VInt total ]} : gmap string value).

Definition update_single_contact_booking_stats (contact_id : Z) (w : World)
    : World * gmap string value :=
  try_task (update_stats_body contact_id)
    "Contact" ("Contact " +:+ pretty contact_id +:+ " not found")
    "Error updating contact booking stats: " w.

(** ** [create_contact_from_booking] *)

(** Lines 268-273. *)
Definition parse_name (invitee_name : string) : string * string :=
  if Py.nonempty invitee_name then
    match Py.split1 " " (Py.strip invitee_name) with
    | [first] => (first, "")
    | first :: last :: _ => (first, last)
    | [] => ("", "")
    end
  else ("", "").

(** [Contact.objects.get_or_create(organizer=..., email=..., defaults=...)]:
    one query for the match, one insert when there is none.  The columns
    that neither the lookup nor [defaults] name take the defaults of the
    model, which are taken to be blank text, no tags, no bookings. *)
Definition contact_get_or_create (organizer : Z) (email : string)
    (first_name last_name phone : string) : Task (Z * Contact.t * bool) :=
  found <- query (λ d, inr (contacts_of organizer email d)) ;;
  match found with
  | [] =>
      let c := Contact.mk organizer (Some first_name) (Some last_name) email
                 (Some phone) (Some "") (Some "") (Some "") [] 0 None in
      pk <- contact_create c ;;
      ret (pk, c, true)
  | [(pk, c)] => ret (pk, c, false)
  | _ :: _ :: _ => raise (MultipleObjectsReturned "Contact")
  end.

(** The body of the [try], lines 264-315. *)
Definition create_from_booking_body (booking_id : Z) : Task (gmap string value) :=
  booking <- booking_get booking_id ;;
  let '(first_name, last_name) := parse_name (Booking.invitee_name booking) in
  r <- contact_get_or_create (Booking.organizer booking) (Booking.invitee_email booking)
         first_name last_name (Booking.invitee_phone booking) ;;
  let '(pk, contact, created) := r in
  total <- booking_count (Booking.organizer booking) (Booking.invitee_email booking) ;;
  let contact := Contact.set_total_bookings total contact in
  let contact := Contact.set_last_booking_date (Some (Booking.start_time booking)) contact in
  contact_save pk contact ;;
  interaction_create
    (ContactInteraction.mk pk (Booking.organizer booking) "booking_created" booking_id
       (Booking.event_type_name booking) (Booking.event_type_duration booking)
       (Booking.start_time booking)) ;;
  let action := if created then "Created" else "Updated" in
  ret ({[ "status" := VStr "success";
          "message" := VStr (action +:+ " contact for " +:+ Booking.invitee_email booking);
          "created" := VBool created ]} : gmap string value).

Definition create_contact_from_booking (booking_id : Z) (w : World)
    : World * gmap string value :=
  try_task (create_from_booking_body booking_id)
    "Booking" ("Booking " +:+ pretty booking_id +:+ " not found")
    "Error creating contact from booking: " w.

(** ** Notions the properties are stated with *)

(** The sum of the booking counts of a list of fetched contacts. *)
Definition sum_bookings (l : list (Z * Contact.t)) : Z :=
  foldr (λ x acc, (Contact.total_bookings x.2 + acc)%Z) 0%Z l.

(** The most recent of two optional dates; an absent date loses. *)
Definition max_date (a b : option Z) : option Z :=
  match a, b with
  | Some x, Some y => Some (Z.max x y)
  | Some x, None => Some x
  | None, _ => b
  end.

(** The maximum of the dates that are present, if any is. *)
Definition latest_date (l : list (option Z)) : option Z :=
  foldr max_date None l.

(** What the loop of a merge makes of an interaction: the ones that belong
    to one of the contacts [ks] go to [primary]. *)
Definition repoint_all (ks : list Z) (primary : Z) (i : ContactInteraction.t)
    : ContactInteraction.t :=
  if decide (ContactInteraction.contact i ∈ ks)
  then ContactInteraction.set_contact primary i else i.

(** The test an email of a row passes at lines 30 and 36. *)
Definition email_accepted (email : string) : bool :=
  Py.nonempty email
  && Py.contains "@" email
  && Py.contains "." (Py.last_piece (Py.split "@" email)).

(** [email] is the email of one of [rows], trimmed and lower-cased, and
    it passed the tests. *)
Definition imported `{!Py.Unicode} (rows : list Row) (email : string) : Prop :=
  ∃ row raw,
    row ∈ rows
    ∧ get row "email" (Some "") = Some raw
    ∧ email = Py.lower (Py.strip raw)
    ∧ email_accepted email = true.

(** How the contacts of [d'] relate to those of [d] after an import of
    [rows] for [organizer].  A contact that was there is still there under
    its key, with its owner and email, and if anything of it has changed
    it belongs to [organizer] and its email is that of a row.  A contact
    that was not there belongs to [organizer], has the email of a row, and
    is the only contact of [organizer] with that email: the lookup of the
    row was under the email that is stored. *)
Definition emails_kept_or_imported `{!Py.Unicode}
    (organizer : Z) (rows : list Row) (d d' : DB) : Prop :=
  (∀ pk c,
     contacts d !! pk = Some c →
     ∃ c', contacts d' !! pk = Some c'
           ∧ Contact.organizer c' = Contact.organizer c
           ∧ Contact.email c' = Contact.email c
           ∧ (c' ≠ c → Contact.organizer c = organizer ∧ imported rows (Contact.email c)))
  ∧ ∀ pk c',
      contacts d' !! pk = Some c' →
      contacts d !! pk = None →
      Contact.organizer c' = organizer
      ∧ imported rows (Contact.email c')
      ∧ ∀ pk2 c2,
          contacts d' !! pk2 = Some c2 →
          Contact.organizer c2 = organizer →
          Contact.email c2 = Contact.email c' →
          pk2 = pk.

(** ** Sample data *)

Module Sample.

Definition ann : Contact.t :=
  Contact.mk 1 (Some "Ann") (Some "Lee") "ann@x.com" (Some "555-0100")
    (Some "Acme") (Some "CEO") (Some "met at the expo") ["vip"] 2 (Some 100).

Definition bob : Contact.t :=
  Contact.mk 1 (Some "Bob") (Some "Ray") "bob@x.com" (Some "")
    (Some "") (Some "") (Some "prefers email") ["vip"; "gold"] 3 (Some 300).

Definition cy : Contact.t :=
  Contact.mk 1 (Some "Cy") (Some "") "cy@x.com" (Some "")
    (Some "") (Some "") (Some "") [] 4 None.

(** An interaction of [bob]. *)
Definition call : ContactInteraction.t :=
  ContactInteraction.mk 2 1 "booking_created" 7 "Intro call" 30 300.

(** Two confirmed bookings of [ann]; the one made last, 11, is for the
    earlier slot. *)
Definition booking10 : Booking.t :=
  Booking.mk 1 "Ann Lee" "ann@x.com" "555-0100" 200 "confirmed" "Intro call" 30.

Definition booking11 : Booking.t :=
  Booking.mk 1 "Ann Lee" "ann@x.com" "555-0100" 100 "confirmed" "Intro call" 30.

(** A booking whose invitee email has capitals. *)
Definition booking12 : Booking.t :=
  Booking.mk 1 "Dee Fox" "Dee@X.COM" "" 400 "confirmed" "Intro call" 30.

(** Organizer 1, no contacts yet. *)
Definition empty_book : DB :=
  mkDB {[1]} ∅ [] {[ 12 := booking12 ]}.

(** Organizer 1 with three contacts, one interaction and two bookings. *)
Definition address_book : DB :=
  mkDB {[1]} {[ 1 := ann; 2 := bob; 3 := cy ]} [call]
       {[ 10 := booking10; 11 := booking11 ]}.

(** The storage raises no fault. *)
Definition up (d : DB) : World := mkWorld d None.

(** The storage answers [n] calls and raises on the next. *)
Definition failing_after (n : nat) (d : DB) : World := mkWorld d (Some n).

(** Rows of a file with the header [first_name,email]; the first line
    has one field only. *)
Definition short_row : Row := {[ "first_name" := Some "Bob"; "email" := None ]}.
Definition dan_row : Row := {[ "first_name" := Some "Dan"; "email" := Some "dan@x.com" ]}.

(** Rows of a file with the header [email,first_name]. *)
Definition a_row : Row := {[ "email" := Some "a@x.com"; "first_name" := Some "A" ]}.
Definition bad_row : Row := {[ "email" := Some "bad-email"; "first_name" := Some "" ]}.
Definition a2_row : Row := {[ "email" := Some "a@x.com"; "first_name" := Some "A2" ]}.

(** Rows of a file with the header [email,phone]. *)
Definition ann_row : Row := {[ "email" := Some " Ann@X.com "; "phone" := Some "555-0199" ]}.

(** A row of a file with the header [email]. *)
Definition two_at_row : Row := {[ "email" := Some "A@B@c.d" ]}.

(** A row of a file with the header [email,company], whose line ends at
    the comma: the company is the empty text. *)
Definition no_company_row : Row := {[ "email" := Some "ann@x.com"; "company" := Some "" ]}.

(** A database with no case mapping beyond the ASCII range; the sample
    data is of that range, where [str.lower] does not read the database. *)
Definition caseless : Py.Unicode := λ s, s.

End Sample.

(** ** [update_contact_booking_stats] *)

(** Evaluating [Contact.objects.select_related('organizer')], as the [for]
    loop over it does. *)
Definition contact_all : Task (list (Z * Contact.t)) :=
  query (λ d, inr (map_to_list (contacts d))).

(** The test of lines 245-247:
    [contact.total_bookings != total_bookings or (last_booking and
    contact.last_booking_date != last_booking.start_time)]. *)
Definition stats_changed (contact : Contact.t) (total : Z)
    (last_booking : option Booking.t) : bool :=
  negb (bool_decide (Contact.total_bookings contact = total))
  || match last_booking with
     | Some b => negb (bool_decide (Contact.last_booking_date contact
                                    = Some (Booking.start_time b)))
     | None => false
     end.

(** The body of the loop, lines 234-251, for the contact fetched under key
    [pk]. *)
Definition update_stats_of (c : Z * Contact.t) (updated_count : Z) : Task Z :=
  let '(pk, contact) := c in
  total <- booking_count (Contact.organizer contact) (Contact.email contact) ;;
  last_booking <- booking_latest (Contact.organizer contact) (Contact.email contact) ;;
  if stats_changed contact total last_booking then
    let contact := Contact.set_total_bookings total contact in
    let contact := Contact.set_last_booking_date (Booking.start_time <$> last_booking) contact in
    contact_save pk contact ;;
    ret (updated_count + 1)%Z
  else ret updated_count.

(** [for contact in contacts: ...] *)
Fixpoint update_stats_loop (contacts : list (Z * Contact.t)) (updated_count : Z)
    : Task Z :=
  match contacts with
  | [] => ret updated_count
  | c :: rest =>
      n <- update_stats_of c updated_count ;;
      update_stats_loop rest n
  end.

(** The task, lines 227-257.  It has no [try]: an exception leaves it. *)
Definition update_contact_booking_stats : Task (gmap string value) :=
  contacts <- contact_all ;;
  updated_count <- update_stats_loop contacts 0 ;;
  ret ({[ "status" := VStr "success";
          "message" := VStr ("Updated booking stats for " +:+ pretty updated_count
                             +:+ " contacts");
          "updated_count" := VInt updated_count ]} : gmap string value).

(** ** [permissions.py] *)

(** [request.user.has_perm] is Django's; the classes are modelled over any
    type of users and any such test.  None of them reads the view. *)
Module Permissions.
Section classes.

Variable User : Type.
Variable has_perm : User → string → bool.
Variable View : Type.

Record Request := mkRequest { user : User }.

Definition CanViewContacts (request : Request) (view : View) : bool :=
  has_perm (user request) "contacts.view_contact".

Definition CanAddContacts (request : Request) (view : View) : bool :=
  has_perm (user request) "contacts.add_contact".

Definition CanChangeContacts (request : Request) (view : View) : bool :=
  has_perm (user request) "contacts.change_contact".

Definition CanDeleteContacts (request : Request) (view : View) : bool :=
  has_perm (user request) "contacts.delete_contact".

Definition CanManageContacts (request : Request) (view : View) : bool :=
  has_perm (user request) "contacts.add_contact"
  && has_perm (user request) "contacts.change_contact"
  && has_perm (user request) "contacts.delete_contact".

Definition CanViewContactGroups (request : Request) (view : View) : bool :=
  has_perm (user request) "contacts.view_contactgroup".

Definition CanManageContactGroups (request : Request) (view : View) : bool :=
  has_perm (user request) "contacts.add_contactgroup"
  && has_perm (user request) "contacts.change_contactgroup"
  && has_perm (user request) "contacts.delete_contactgroup".

Definition CanViewContactInteractions (request : Request) (view : View) : bool :=
  has_perm (user request) "contacts.view_contactinteraction".

Definition CanAddContactInteractions (request : Request) (view : View) : bool :=
  has_perm (user request) "contacts.add_contactinteraction".

(** The permission classes of the module. *)
Definition classes : list (Request → View → bool) :=
  [CanViewContacts; CanAddContacts; CanChangeContacts; CanDeleteContacts;
   CanManageContacts; CanViewContactGroups; CanManageContactGroups;
   CanViewContactInteractions; CanAddContactInteractions].

End classes.
End Permissions.

(** ** Frames *)

(** A task that keeps a relation between the tables it starts from and
    the tables it leaves, whether it returns or raises. *)
Definition keeps (P : DB → DB → Prop) {A} (m : Task A) : Prop :=
  ∀ w, P (db w) (db (m w).1).

(** Everything of a contact but its booking statistics. *)
Definition same_profile (c c' : Contact.t) : Prop :=
  Contact.organizer c' = Contact.organizer c
  ∧ Contact.first_name c' = Contact.first_name c
  ∧ Contact.last_name c' = Contact.last_name c
  ∧ Contact.email c' = Contact.email c
  ∧ Contact.phone c' = Contact.phone c
  ∧ Contact.company c' = Contact.company c
  ∧ Contact.job_title c' = Contact.job_title c
  ∧ Contact.notes c' = Contact.notes c
  ∧ Contact.tags c' = Contact.tags c.

(** The tables other than [Contact] are the same. *)
Definition other_tables_same (d d' : DB) : Prop :=
  users d' = users d ∧ interactions d' = interactions d ∧ bookings d' = bookings d.

(** What a merge into [pk] of the contacts [ids] may change: the row of
    [pk], the rows named by [ids], and the contact of an interaction, to
    [pk]. *)
Definition merge_frame (pk : Z) (ids : list Z) (d d' : DB) : Prop :=
  users d' = users d
  ∧ bookings d' = bookings d
  ∧ (∀ k, k ≠ pk → k ∉ ids → contacts d' !! k = contacts d !! k)
  ∧ Forall2 (λ i i', i' = i ∨ i' = ContactInteraction.set_contact pk i)
            (interactions d) (interactions d').

(** What an import for [organizer] may change: it adds contacts, and with
    [update_existing] it rewrites contacts of [organizer], but neither
    their key, owner and email nor their booking statistics. *)
Definition import_frame (organizer : Z) (update_existing : bool) (d d' : DB) : Prop :=
  other_tables_same d d'
  ∧ ∀ k c,
      contacts d !! k = Some c →
      ∃ c',
        contacts d' !! k = Some c'
        ∧ Contact.organizer c' = Contact.organizer c
        ∧ Contact.email c' = Contact.email c
        ∧ Contact.total_bookings c' = Contact.total_bookings c
        ∧ Contact.last_booking_date c' = Contact.last_booking_date c
        ∧ (Contact.organizer c ≠ organizer ∨ update_existing = false → c' = c).

(** ** Rows and their emails *)

(** The email under which an import looks a row up, when the row passes
    the tests of lines 30 and 36; no email when it does not, or when the
    line is too short to have the field. *)
Definition row_email `{!Py.Unicode} (row : Row) : option string :=
  match get row "email" (Some "") with
  | Some raw =>
      if email_accepted (Py.lower (Py.strip raw))
      then Some (Py.lower (Py.strip raw)) else None
  | None => None
  end.

(** The rows counted so far. *)
Definition tally (st : Counters) : Z :=
  (created_count st + updated_count st + skipped_count st)%Z.

(** There is a contact of [organizer] with this [email]. *)
Definition has_contact (organizer : Z) (email : string) (d : DB) : Prop :=
  ∃ k c, contacts d !! k = Some c
         ∧ Contact.organizer c = organizer ∧ Contact.email c = email.

(** The rows up to the first one without an acceptable email all have
    their contact. *)
Fixpoint covered `{!Py.Unicode} (organizer : Z) (rows : list Row) (d : DB) : Prop :=
  match rows with
  | [] => True
  | row :: rest =>
      match row_email row with
      | Some email => has_contact organizer email d ∧ covered organizer rest d
      | None => True
      end
  end.

(** The text attributes that an update assigns, each under the column of
    its name. *)
Definition text_fields : list (string * (Contact.t → Py.text)) :=
  [("first_name", Contact.first_name); ("last_name", Contact.last_name);
   ("phone", Contact.phone); ("company", Contact.company);
   ("job_title", Contact.job_title); ("notes", Contact.notes)].

(** The row of a line that has a field for every column of the header:
    no column is bound to [None]. *)
Definition complete (row : Row) : Prop :=
  map_Forall (λ _ cell, is_Some cell) row.

(** ** Tags *)

(** A tag as an import writes it: not empty, trimmed, without a comma. *)
Definition clean_tag (tag : string) : Prop :=
  tag ≠ "" ∧ Py.strip tag = tag ∧ Py.contains "," tag = false.

(** After an import a contact has the tags it had, or clean tags. *)
Definition tags_kept_or_clean (d d' : DB) : Prop :=
  ∀ k c',
    contacts d' !! k = Some c' →
    (∃ c, contacts d !! k = Some c ∧ Contact.tags c = Contact.tags c')
    ∨ Forall clean_tag (Contact.tags c').

(** ** Identity *)

(** No two contacts have the same organizer and email. *)
Definition unique_identity (d : DB) : Prop :=
  ∀ k1 k2 c1 c2,
    contacts d !! k1 = Some c1 →
    contacts d !! k2 = Some c2 →
    Contact.organizer c1 = Contact.organizer c2 →
    Contact.email c1 = Contact.email c2 →
    k1 = k2.

(** A step that does not break [unique_identity]. *)
Definition keeps_identity (d d' : DB) : Prop :=
  unique_identity d → unique_identity d'.

(** ** The sweep of the statistics *)

(** What lines 234-250 make of a contact, given the bookings of [d]. *)
Definition swept (d : DB) (contact : Contact.t) : Contact.t :=
  let confirmed :=
    confirmed_bookings (Contact.organizer contact) (Contact.email contact) d in
  if stats_changed contact (len confirmed) (latest_by_start confirmed)
  then Contact.set_last_booking_date (Booking.start_time <$> latest_by_start confirmed)
         (Contact.set_total_bookings (len confirmed) contact)
  else contact.

(** ** Sample users *)

Module Staff.

(** A user is the list of the permissions granted. *)
Definition has_perm (u : list string) (perm : string) : bool :=
  bool_decide (perm ∈ u).

Definition editor : list string :=
  ["contacts.add_contact"; "contacts.change_contact"; "contacts.delete_contact"].

Definition admin : list string := "contacts.view_contact" :: editor.

End Staff.

(** * Properties *)

(** ** Tactics *)

Ltac run_storage :=
  repeat (unfold bind, ret, raise, query, execute, storage_call,
            contact_get, contact_filter_id_in, contact_save,
            contact_delete_id_in; simpl).

Ltac run_import :=
  unfold reconcile, contact_filter_first, contact_save, contact_create,
    query, execute, bind, ret, storage_call; simpl.

Ltac keeps_with lem := apply lem; try (by apply _).

Ltac by_computation := apply (bool_decide_unpack _); vm_compute; exact I.

(** The properties are proved for every Unicode character database. *)
Section properties.
Context {unicode_database : Py.Unicode}.

(** ** Python strings on examples *)

Example strip_example : Py.strip "  Bob@X.com  " = "Bob@X.com".
Proof. reflexivity. Qed.

Example lower_example : Py.lower "Bob@X.com" = "bob@x.com".
Proof. reflexivity. Qed.

Example split_example : Py.split "," "a, b,,c" = ["a"; " b"; ""; "c"].
Proof. reflexivity. Qed.

Example split1_example :
  Py.split1 " " "Ada King Lovelace" = ["Ada"; "King Lovelace"].
Proof. reflexivity. Qed.

Example last_piece_example : Py.last_piece (Py.split "@" "a@b@c.d") = "c.d".
Proof. reflexivity. Qed.

Example parse_tags_example : parse_tags " vip, ,gold ," = ["vip"; "gold"].
Proof. reflexivity. Qed.

Example parse_name_example : parse_name " Ann Lee Fox" = ("Ann", "Lee Fox").
Proof. reflexivity. Qed.

(** ** Running the storage calls *)

Lemma storage_call_up w : outage w = None → storage_call w = (w, inr tt).
Proof. intros H. unfold storage_call. by rewrite H. Qed.

Lemma world_eta w : mkWorld (db w) (outage w) = w.
Proof. by destruct w. Qed.

Lemma query_up {A} (f : DB → exn + A) w :
  outage w = None → query f w = (w, f (db w)).
Proof. intros H. unfold query, bind. by rewrite storage_call_up. Qed.

Lemma execute_up f w :
  outage w = None → execute f w = (mkWorld (f (db w)) None, inr tt).
Proof. intros H. unfold execute, bind. rewrite storage_call_up by done. by rewrite H. Qed.

Lemma later_date_max a b : later_date a b = max_date a b.
Proof.
  destruct a as [x|], b as [y|]; simpl; try done.
  destruct (Z.ltb_spec x y); f_equal; lia.
Qed.

Lemma max_date_comm a b : max_date a b = max_date b a.
Proof. destruct a, b; simpl; f_equal; lia. Qed.

Lemma max_date_assoc a b c : max_date a (max_date b c) = max_date (max_date a b) c.
Proof. destruct a, b, c; simpl; f_equal; lia. Qed.

Lemma sum_bookings_perm l l' : Permutation l l' → sum_bookings l = sum_bookings l'.
Proof. induction 1; simpl; lia. Qed.

Lemma latest_date_perm l l' : Permutation l l' → latest_date l = latest_date l'.
Proof.
  induction 1 as [|x l l' _ IH|x y l|l l' l'' _ IH1 _ IH2]; simpl.
  - done.
  - by rewrite IH.
  - rewrite !max_date_assoc. f_equal. apply max_date_comm.
  - congruence.
Qed.

Lemma merge_tags_aggregates d p :
  Contact.total_bookings (merge_tags d p) = Contact.total_bookings p
  ∧ Contact.last_booking_date (merge_tags d p) = Contact.last_booking_date p.
Proof. unfold merge_tags. by destruct (Contact.tags d). Qed.

Lemma merge_notes_aggregates d p :
  Contact.total_bookings (merge_notes d p) = Contact.total_bookings p
  ∧ Contact.last_booking_date (merge_notes d p) = Contact.last_booking_date p.
Proof. unfold merge_notes. by repeat case_match. Qed.

Lemma with_interactions_id d : with_interactions (λ l, l) d = d.
Proof. by destruct d. Qed.

Lemma repoint_all_cons k ks pk i :
  repoint_all ks pk (repoint k pk i) = repoint_all (k :: ks) pk i.
Proof.
  unfold repoint_all, repoint.
  destruct (decide (ContactInteraction.contact i = k)) as [->|Hne].
  - rewrite (decide_True (P := k ∈ k :: ks)) by apply list_elem_of_here.
    by case_decide.
  - destruct (decide (ContactInteraction.contact i ∈ ks)) as [Hin|Hnin].
    + rewrite decide_True; [done|]. by apply list_elem_of_further.
    + rewrite decide_False; [done|]. by intros [?|?]%elem_of_cons.
Qed.

(** With the storage up, the loop runs to its end; its counters are a sum
    and a running maximum, and it leaves the aggregates of the primary
    object alone. *)
Lemma merge_duplicates_up pk dups : ∀ m w,
  outage w = None →
  ∃ w' m',
    merge_duplicates pk dups m w = (w', inr m')
    ∧ outage w' = None
    ∧ db w' = with_interactions (map (repoint_all dups.*1 pk)) (db w)
    ∧ total_bookings m' = (total_bookings m + sum_bookings dups)%Z
    ∧ latest_booking_date m'
      = max_date (latest_date (Contact.last_booking_date <$> dups.*2)) (latest_booking_date m)
    ∧ Contact.total_bookings (primary_contact m') = Contact.total_bookings (primary_contact m)
    ∧ Contact.last_booking_date (primary_contact m')
      = Contact.last_booking_date (primary_contact m).
Proof.
  induction dups as [|[k d] dups IH]; intros m w Hw.
  - exists w, m. simpl. repeat split; try done; try lia.
    rewrite <- (with_interactions_id (db w)) at 1. unfold with_interactions.
    f_equal. rewrite <- (map_id (interactions (db w))) at 1.
    apply map_ext. intros i. unfold repoint_all. by rewrite decide_False by apply not_elem_of_nil.
  - simpl. unfold bind at 1. unfold merge_duplicate, bind at 1.
    unfold interaction_update_contact. rewrite execute_up by done.
    unfold ret at 1.
    set (w1 := mkWorld _ None). set (m1 := mkMerge _ _ _).
    destruct (IH m1 w1) as (w' & m' & -> & Hout & Hc & Ht & Hl & Hpt & Hpl); [done|].
    exists w', m'. repeat split; try done.
    + rewrite Hc. unfold w1, with_interactions. simpl. f_equal.
      rewrite map_map. apply map_ext. intros i. apply repoint_all_cons.
    + rewrite Ht. simpl. lia.
    + rewrite Hl. simpl. rewrite later_date_max.
      rewrite (max_date_comm (Contact.last_booking_date d)).
      rewrite <- max_date_assoc. f_equal. apply max_date_comm.
    + rewrite Hpt. simpl.
      destruct (merge_notes_aggregates d (merge_tags d (primary_contact m))) as [-> _].
      by destruct (merge_tags_aggregates d (primary_contact m)) as [-> _].
    + rewrite Hpl. simpl.
      destruct (merge_notes_aggregates d (merge_tags d (primary_contact m))) as [_ ->].
      by destruct (merge_tags_aggregates d (primary_contact m)) as [_ ->].
Qed.

Lemma merged_primary_aggregates m :
  Contact.total_bookings (merged_primary m)
  = (Contact.total_bookings (primary_contact m) + total_bookings m)%Z
  ∧ Contact.last_booking_date (merged_primary m)
    = match latest_booking_date m with
      | Some d => Some d
      | None => Contact.last_booking_date (primary_contact m)
      end.
Proof. unfold merged_primary. by destruct (latest_booking_date m). Qed.

Lemma merged_primary_id p :
  merged_primary (mkMerge p 0 (Contact.last_booking_date p)) = p.
Proof.
  unfold merged_primary. destruct p as [? ? ? ? ? ? ? ? ? n [d|]]; simpl;
    unfold Contact.set_total_bookings, Contact.set_last_booking_date; simpl;
    f_equal; lia.
Qed.

Lemma contacts_in_lookup (ids : list Z) d k c :
  (k, c) ∈ contacts_in ids d ↔ k ∈ ids ∧ contacts d !! k = Some c.
Proof.
  unfold contacts_in. rewrite list_elem_of_filter, elem_of_map_to_list. done.
Qed.

Lemma contacts_in_unresolved (ids : list Z) d :
  (∀ id, id ∈ ids → contacts d !! id = None) → contacts_in ids d = [].
Proof.
  intros H. destruct (contacts_in ids d) as [|[k c] l] eqn:E; [done|].
  assert ((k, c) ∈ contacts_in ids d) as [Hk Hc]%contacts_in_lookup
    by (rewrite E; apply list_elem_of_here).
  rewrite (H k Hk) in Hc. done.
Qed.

Lemma delete_unresolved (ids : list Z) (m : gmap Z Contact.t) :
  (∀ id, id ∈ ids → m !! id = None) → filter (λ x, x.1 ∉ ids) m = m.
Proof.
  intros H. apply map_filter_id. intros k c Hk Hin. simpl in Hin.
  rewrite (H k Hin) in Hk. done.
Qed.

Lemma with_contacts_same f d : f (contacts d) = contacts d → with_contacts f d = d.
Proof. intros H. unfold with_contacts. rewrite H. by destruct d. Qed.


(** C10. A merge whose duplicate ids resolve to no contact leaves every
    table as it was, whether or not the storage faults: no field of the
    primary changes, no contact is deleted and no interaction repointed;
    and with the storage up it returns success. *)
Theorem merge_nothing_is_identity pk (ids : list Z) primary w :
  contacts (db w) !! pk = Some primary →
  (∀ id, id ∈ ids → contacts (db w) !! id = None) →
  db (merge_contact_data pk ids w).1 = db w
  ∧ (outage w = None →
     (merge_contact_data pk ids w).2 !! "status" = Some (VStr "success")).
Proof.
  intros Hp Hids.
  assert (Hsave : with_contacts (insert pk primary) (db w) = db w)
    by (apply with_contacts_same; by apply insert_id).
  assert (Hdel : with_contacts (filter (λ x, x.1 ∉ ids)) (db w) = db w)
    by (apply with_contacts_same; by apply delete_unresolved).
  unfold merge_contact_data, try_task, merge_body, merge_into.
  destruct w as [d [[|[|[|[|n]]]]|]]; simpl in *;
    run_storage; rewrite ?Hp; simpl; rewrite ?contacts_in_unresolved by done; simpl;
    rewrite ?merged_primary_id; simpl; rewrite ?Hsave; simpl; rewrite ?Hdel;
    (split; [done|]); try done.
Qed.

(** With the storage up, a merge runs to its end: it repoints the
    interactions of the duplicates it was given, writes the primary and
    deletes the rows named by [ids]. *)
Lemma merge_into_up pk primary dups (ids : list Z) w :
  outage w = None →
  ∃ saved result,
    merge_into pk primary dups ids w
    = (mkWorld (with_contacts (filter (λ x, x.1 ∉ ids))
                  (with_contacts (insert pk saved)
                     (with_interactions (map (repoint_all dups.*1 pk)) (db w))))
               None,
       inr result)
    ∧ result !! "status" = Some (VStr "success")
    ∧ Contact.total_bookings saved
      = (Contact.total_bookings primary + sum_bookings dups)%Z
    ∧ Contact.last_booking_date saved
      = latest_date (Contact.last_booking_date primary
                     :: (Contact.last_booking_date <$> dups.*2)).
Proof.
  intros Hw. unfold merge_into.
  destruct (merge_duplicates_up pk dups
              (mkMerge primary 0 (Contact.last_booking_date primary)) w Hw)
    as (w1 & m & Hrun & Hout & Hdb & Ht & Hl & Hpt & Hpl).
  exists (merged_primary m). eexists.
  unfold bind at 1. rewrite Hrun.
  unfold bind at 1. unfold contact_save. rewrite execute_up by done.
  unfold bind at 1. unfold contact_delete_id_in. rewrite execute_up by done.
  unfold ret. simpl. rewrite Hdb. split; [reflexivity|].
  destruct (merged_primary_aggregates m) as [Et El].
  split; [done|]. split.
  - rewrite Et, Hpt, Ht. simpl. lia.
  - rewrite El, Hpl, Hl. simpl.
    destruct (Contact.last_booking_date primary) as [x|],
      (latest_date (Contact.last_booking_date <$> dups.*2)) as [y|]; simpl;
      f_equal; lia.
Qed.

(** C6. For every primary and every list of duplicates, in whichever order
    the duplicates are iterated, the primary that a merge leaves in the
    table has as [total_bookings] the sum of its own and every
    duplicate's, and as [last_booking_date] the maximum of the dates
    present among them; an absent date overrides none.  The storage is up
    and the primary is not named among the ids that the merge deletes. *)
Theorem merge_aggregates_order_independent pk primary dups dups' (ids : list Z) w :
  outage w = None →
  pk ∉ ids →
  Permutation dups dups' →
  ∃ saved saved',
    contacts (db (merge_into pk primary dups ids w).1) !! pk = Some saved
    ∧ contacts (db (merge_into pk primary dups' ids w).1) !! pk = Some saved'
    ∧ Contact.total_bookings saved
      = (Contact.total_bookings primary + sum_bookings dups)%Z
    ∧ Contact.last_booking_date saved
      = latest_date (Contact.last_booking_date primary
                     :: (Contact.last_booking_date <$> dups.*2))
    ∧ Contact.total_bookings saved' = Contact.total_bookings saved
    ∧ Contact.last_booking_date saved' = Contact.last_booking_date saved.
Proof.
  intros Hw Hpk Hperm.
  destruct (merge_into_up pk primary dups ids w Hw) as (s & r & -> & _ & Ht & Hl).
  destruct (merge_into_up pk primary dups' ids w Hw) as (s' & r' & -> & _ & Ht' & Hl').
  exists s, s'. simpl.
  assert (Hkeep : ∀ (c : Contact.t) (m : gmap Z Contact.t),
             filter (λ x : Z * Contact.t, x.1 ∉ ids) (<[pk:=c]> m) !! pk = Some c).
  { intros c m. apply map_lookup_filter_Some. split; [apply lookup_insert_eq|done]. }
  repeat split; try done; try apply Hkeep.
  - rewrite Ht', Ht. f_equal. symmetry. by apply sum_bookings_perm.
  - rewrite Hl', Hl. simpl. f_equal. symmetry. apply latest_date_perm.
    by apply fmap_Permutation, fmap_Permutation.
Qed.

Lemma contacts_in_keys (ids : list Z) d k :
  k ∈ (contacts_in ids d).*1 ↔ k ∈ ids ∧ is_Some (contacts d !! k).
Proof.
  rewrite list_elem_of_fmap. split.
  - intros ([k' c] & -> & [Hk Hc]%contacts_in_lookup). simpl. eauto.
  - intros [Hk [c Hc]]. exists (k, c). split; [done|]. by apply contacts_in_lookup.
Qed.

(** C2, as the code has it. A merge is all or nothing in two cases only.
    When the primary does not resolve, it returns status error and changes
    no table.  When the primary resolves, is not itself named among the
    duplicates and the storage raises no fault, it returns success having
    saved the primary with the summed counter, deleted every contact named
    among the duplicates and repointed to the primary exactly the
    interactions of the duplicates that resolved. *)
Theorem merge_completes_or_finds_no_primary pk (ids : list Z) w :
  (contacts (db w) !! pk = None →
     (merge_contact_data pk ids w).2 !! "status" = Some (VStr "error")
     ∧ db (merge_contact_data pk ids w).1 = db w)
  ∧ (∀ primary,
       contacts (db w) !! pk = Some primary → pk ∉ ids → outage w = None →
       (merge_contact_data pk ids w).2 !! "status" = Some (VStr "success")
       ∧ (∃ saved,
            contacts (db (merge_contact_data pk ids w).1) !! pk = Some saved
            ∧ Contact.total_bookings saved
              = (Contact.total_bookings primary
                 + sum_bookings (contacts_in ids (db w)))%Z)
       ∧ (∀ id, id ∈ ids → contacts (db (merge_contact_data pk ids w).1) !! id = None)
       ∧ Forall2
           (λ i i',
              if decide (ContactInteraction.contact i ∈ ids
                         ∧ is_Some (contacts (db w) !! ContactInteraction.contact i))
              then i' = ContactInteraction.set_contact pk i
              else i' = i)
           (interactions (db w))
           (interactions (db (merge_contact_data pk ids w).1))).
Proof.
  split.
  - intros Hp. unfold merge_contact_data, try_task, merge_body.
    destruct w as [d [[|n]|]]; simpl in *; run_storage; rewrite ?Hp; by simpl.
  - intros primary Hp Hpk Hw.
    destruct (merge_into_up pk primary (contacts_in ids (db w)) ids w Hw)
      as (saved & result & Hrun & Hst & Ht & _).
    assert (merge_contact_data pk ids w
            = (mkWorld (with_contacts (filter (λ x, x.1 ∉ ids))
                          (with_contacts (insert pk saved)
                             (with_interactions
                                (map (repoint_all (contacts_in ids (db w)).*1 pk)) (db w))))
                       None, result)) as ->.
    { unfold merge_contact_data, try_task, merge_body.
      unfold bind at 1. unfold contact_get. rewrite query_up by done. rewrite Hp.
      unfold bind at 1. unfold contact_filter_id_in. rewrite query_up by done.
      by rewrite Hrun. }
    simpl. split; [done|]. split; [|split].
    + exists saved. split; [|done].
      apply map_lookup_filter_Some. split; [apply lookup_insert_eq|done].
    + intros id Hid. apply map_lookup_filter_None. right. intros c _. simpl. tauto.
    + apply Forall2_fmap_r, Forall_Forall2_diag, Forall_forall. intros i _.
      unfold compose, repoint_all. cbn beta.
      destruct (decide (ContactInteraction.contact i ∈ (contacts_in ids (db w)).*1))
        as [Hin|Hnin].
      * rewrite decide_True; [done|]. by apply contacts_in_keys.
      * rewrite decide_False; [done|]. by rewrite <- contacts_in_keys.
Qed.

(** ** Rows of an import *)

Lemma first_by_pk_elem {A} (l : list (Z * A)) x : first_by_pk l = Some x → x ∈ l.
Proof.
  revert x. induction l as [|y l IH]; intros x; simpl; [done|].
  destruct (first_by_pk l) as [z|] eqn:E.
  - destruct (y.1 <? z.1)%Z; intros [= <-].
    + apply list_elem_of_here.
    + apply list_elem_of_further. by apply IH.
  - intros [= <-]. apply list_elem_of_here.
Qed.

Lemma contacts_of_lookup organizer email d k c :
  (k, c) ∈ contacts_of organizer email d
  ↔ contacts d !! k = Some c ∧ Contact.organizer c = organizer ∧ Contact.email c = email.
Proof.
  unfold contacts_of. rewrite list_elem_of_filter, elem_of_map_to_list. simpl. tauto.
Qed.

Lemma existing_contact_lookup organizer email d k c :
  first_by_pk (contacts_of organizer email d) = Some (k, c) →
  contacts d !! k = Some c ∧ Contact.organizer c = organizer ∧ Contact.email c = email.
Proof. intros H%first_by_pk_elem. by apply contacts_of_lookup. Qed.

Lemma email_accepted_tests email :
  email_accepted email = true →
  negb (Py.nonempty email) = false
  ∧ negb (Py.contains "@" email)
    || negb (Py.contains "." (Py.last_piece (Py.split "@" email))) = false.
Proof.
  unfold email_accepted. intros [[-> ->]%andb_true_iff ->]%andb_true_iff. done.
Qed.

(** A row whose email passes the tests goes on to the lookup. *)
Lemma import_row_accepted organizer skip upd (row : Row) st raw w :
  get row "email" (Some "") = Some raw →
  email_accepted (Py.lower (Py.strip raw)) = true →
  import_row organizer skip upd row st w
  = reconcile organizer skip upd row (Py.lower (Py.strip raw)) st w.
Proof.
  intros Hraw [Hne Hfmt]%email_accepted_tests.
  unfold import_row. rewrite Hraw. unfold strip, bind at 1, ret at 1.
  by rewrite Hne, Hfmt.
Qed.

(** A row that does not go on to the lookup raises and writes nothing. *)
Lemma import_row_rejected organizer skip upd (row : Row) st w :
  (∃ raw, get row "email" (Some "") = Some raw
          ∧ email_accepted (Py.lower (Py.strip raw)) = true)
  ∨ (∃ e, import_row organizer skip upd row st w = (w, inl e)).
Proof.
  unfold import_row. destruct (get row "email" (Some "")) as [raw|] eqn:Hraw.
  - unfold strip, bind at 1, ret at 1.
    destruct (email_accepted (Py.lower (Py.strip raw))) eqn:Hok; [left; eauto|].
    right. unfold email_accepted in Hok.
    destruct (Py.nonempty (Py.lower (Py.strip raw))); simpl in *.
    + destruct (Py.contains "@" (Py.lower (Py.strip raw))); simpl in *.
      * rewrite Hok. simpl. eauto.
      * eauto.
    + eauto.
  - right. eauto.
Qed.

Lemma import_row_except_raises e st w :
  import_row_except e st w = (w, inl (NameError "row_num")).
Proof. done. Qed.

Lemma get_absent (row : Row) key dflt : row !! key = None → get row key dflt = dflt.
Proof. intros H. unfold get. by rewrite H. Qed.

(** C3, as the code has it. When a row is processed with update_existing
    on and its email resolves to an existing contact, then whatever the
    storage does each of first_name, last_name, phone, company, job_title
    and notes whose column the row does not have keeps the value the
    contact had, and one whose column the row has ends as the cell of the
    row or as it was.  With the storage up and a row of a line that has a
    field for every column, the row is counted as an update and each field
    whose column the row has is the text of its cell, empty or not. *)
Theorem update_keeps_fields_of_absent_columns
    organizer skip (row : Row) st w raw pk existing :
  get row "email" (Some "") = Some raw →
  email_accepted (Py.lower (Py.strip raw)) = true →
  first_by_pk (contacts_of organizer (Py.lower (Py.strip raw)) (db w)) = Some (pk, existing) →
  ∃ c,
    contacts (db (import_row organizer skip true row st w).1) !! pk = Some c
    ∧ Forall (λ '(key, field),
                match row !! key with
                | None => field c = field existing
                | Some cell => field c = cell ∨ field c = field existing
                end) text_fields
    ∧ (outage w = None → complete row →
       (import_row organizer skip true row st w).2
       = inr (mkCounters (created_count st) (updated_count st + 1)
                         (skipped_count st) (errors st))
       ∧ Forall (λ '(key, field), ∀ cell, row !! key = Some cell → field c = cell)
                text_fields).
Proof.
  intros Hraw Hok Hfound.
  rewrite import_row_accepted with (raw := raw) by done.
  destruct (existing_contact_lookup _ _ _ _ _ Hfound) as (Hpk & _ & _).
  assert (Hkept : Forall (λ '(key, field),
                match row !! key with
                | None => field existing = field existing
                | Some cell => field existing = cell ∨ field existing = field existing
                end) text_fields).
  { unfold text_fields. repeat constructor; by case_match; auto. }
  destruct w as [d [[|[|n]]|]]; simpl in *; run_import; rewrite ?Hfound; simpl.
  1-2: exists existing; split_and!; done.
  all: eexists; split; [apply lookup_insert_eq|].
  all: repeat match goal with |- context [if ?b then _ else _] => destruct b end.
  all: split; [|try (intros _ _; split; [done|])].
  all: unfold text_fields, get; simpl; repeat constructor;
    try (intros cell ->; done); destruct (row !! _); simpl; auto.
Qed.

(** C9, as the code has it. A row whose email resolves to an existing
    contact, processed with skip_duplicates and update_existing both off,
    writes nothing and leaves every counter and the error list as they
    were: it is neither counted as skipped nor noted. *)
Theorem existing_row_without_policy_is_passed_over organizer (row : Row) st w raw pk existing :
  get row "email" (Some "") = Some raw →
  email_accepted (Py.lower (Py.strip raw)) = true →
  first_by_pk (contacts_of organizer (Py.lower (Py.strip raw)) (db w)) = Some (pk, existing) →
  outage w ≠ Some O →
  (import_row organizer false false row st w).2 = inr st
  ∧ db (import_row organizer false false row st w).1 = db w.
Proof.
  intros Hraw Hok Hfound Hup.
  rewrite import_row_accepted with (raw := raw) by done.
  destruct w as [d [[|n]|]]; simpl in *; [done| |]; run_import; by rewrite Hfound.
Qed.

(** ** Trimming *)

Lemma append_assoc s t u : (s +:+ t) +:+ u = s +:+ t +:+ u.
Proof.
  induction s as [|a s IH]; [done|].
  change (String a ((s +:+ t) +:+ u) = String a (s +:+ t +:+ u)). by rewrite IH.
Qed.

Lemma lstrip_unfold s :
  Py.lstrip s = match Py.after_space s with Some r => Py.lstrip r | None => s end.
Proof.
  destruct s as [|a [|b [|c s]]]; simpl; try done.
  - by destruct (Py.isspace a).
  - destruct (Py.isspace a); [done|]. by destruct (Py.isspace2 a b).
  - destruct (Py.isspace a); [done|]. destruct (Py.isspace2 a b); [done|].
    by destruct (Py.isspace3 a b c).
Qed.

(** The character at the head of a string is read from its first bytes. *)
Lemma after_space_app s r t :
  Py.after_space s = Some r → Py.after_space (s +:+ t) = Some (r +:+ t).
Proof.
  destruct s as [|a [|b [|c s]]]; simpl; try done.
  - destruct (Py.isspace a); [|done]. by intros [= <-].
  - destruct (Py.isspace a); [by intros [= <-]|].
    destruct (Py.isspace2 a b); [|done]. by intros [= <-].
  - destruct (Py.isspace a); [by intros [= <-]|].
    destruct (Py.isspace2 a b); [by intros [= <-]|].
    destruct (Py.isspace3 a b c); [|done]. by intros [= <-].
Qed.

Lemma after_space_shorter s r :
  Py.after_space s = Some r → (String.length r < String.length s)%nat.
Proof.
  destruct s as [|a [|b [|c s]]]; simpl; try done.
  - destruct (Py.isspace a); [|done]. intros [= <-]. simpl. lia.
  - destruct (Py.isspace a); [intros [= <-]; simpl; lia|].
    destruct (Py.isspace2 a b); [|done]. intros [= <-]. simpl. lia.
  - destruct (Py.isspace a); [intros [= <-]; simpl; lia|].
    destruct (Py.isspace2 a b); [intros [= <-]; simpl; lia|].
    destruct (Py.isspace3 a b c); [|done]. intros [= <-]. simpl. lia.
Qed.

Lemma after_space_suffix s r : Py.after_space s = Some r → ∃ p, s = p +:+ r.
Proof.
  destruct s as [|a [|b [|c s]]]; simpl; try done.
  - destruct (Py.isspace a); [|done]. intros [= <-]. by exists (String a "").
  - destruct (Py.isspace a); [intros [= <-]; by exists (String a "")|].
    destruct (Py.isspace2 a b); [|done]. intros [= <-]. by exists (String a (String b "")).
  - destruct (Py.isspace a); [intros [= <-]; by exists (String a "")|].
    destruct (Py.isspace2 a b); [intros [= <-]; by exists (String a (String b ""))|].
    destruct (Py.isspace3 a b c); [|done]. intros [= <-].
    by exists (String a (String b (String c ""))).
Qed.

(** Induction on a string along the characters that [lstrip] removes. *)
Lemma lstrip_ind (P : string → Prop) :
  (∀ s, Py.after_space s = None → P s) →
  (∀ s r, Py.after_space s = Some r → P r → P s) →
  ∀ s, P s.
Proof.
  intros Hnone Hsome s.
  remember (String.length s) as n eqn:Hn. revert s Hn.
  induction n as [n IH] using lt_wf_ind. intros s ->.
  destruct (Py.after_space s) as [r|] eqn:E; [|by apply Hnone].
  apply (Hsome s r E). apply (IH (String.length r)); [|done].
  by apply after_space_shorter.
Qed.

Lemma lstrip_head s : Py.after_space (Py.lstrip s) = None.
Proof.
  induction s as [s E|s r E IH] using lstrip_ind; rewrite lstrip_unfold, E; done.
Qed.

Lemma lstrip_fixed s : Py.after_space s = None → Py.lstrip s = s.
Proof. intros E. by rewrite lstrip_unfold, E. Qed.

Lemma lstrip_suffix s : ∃ p, s = p +:+ Py.lstrip s.
Proof.
  induction s as [s E|s r E [p IH]] using lstrip_ind; rewrite lstrip_unfold, E.
  - by exists "".
  - destruct (after_space_suffix s r E) as [q ->]. exists (q +:+ p).
    rewrite IH at 1. by rewrite append_assoc.
Qed.

Lemma lstrip_app_blank s t : Py.blank s = true → Py.lstrip (s +:+ t) = Py.lstrip t.
Proof.
  unfold Py.blank.
  induction s as [s E|s r E IH] using lstrip_ind; rewrite (lstrip_unfold s), E.
  - by destruct s.
  - intros H. rewrite lstrip_unfold, (after_space_app s r t E). by apply IH.
Qed.

(** What [rstrip] cuts off is whitespace. *)
Lemma rstrip_prefix s : ∃ t, s = Py.rstrip s +:+ t ∧ Py.blank t = true.
Proof.
  induction s as [|a s (t & Hs & Ht)]; [by exists ""|].
  cbn [Py.rstrip]. destruct (Py.blank (String a s)) eqn:E.
  - by exists (String a s).
  - exists t. split; [|done].
    change (String a s = String a (Py.rstrip s +:+ t)). by f_equal.
Qed.

Lemma rstrip_idemp s : Py.rstrip (Py.rstrip s) = Py.rstrip s.
Proof.
  induction s as [|a s IH]; [done|].
  cbn [Py.rstrip]. destruct (Py.blank (String a s)) eqn:E; [done|].
  cbn [Py.rstrip]. rewrite IH.
  destruct (Py.blank (String a (Py.rstrip s))) eqn:E'; [|done].
  destruct (rstrip_prefix s) as (t & Hs & Ht).
  rewrite Hs in E. unfold Py.blank in E.
  change (String a (Py.rstrip s +:+ t)) with (String a (Py.rstrip s) +:+ t) in E.
  rewrite lstrip_app_blank in E by done. unfold Py.blank in Ht.
  destruct (Py.lstrip t); done.
Qed.

Lemma rstrip_head s : Py.after_space s = None → Py.after_space (Py.rstrip s) = None.
Proof.
  intros E. destruct (rstrip_prefix s) as (t & Hs & _).
  destruct (Py.after_space (Py.rstrip s)) as [r|] eqn:E'; [|done].
  apply (after_space_app _ _ t) in E'. rewrite <- Hs in E'. congruence.
Qed.

Lemma strip_idemp s : Py.strip (Py.strip s) = Py.strip s.
Proof.
  unfold Py.strip.
  rewrite (lstrip_fixed (Py.rstrip (Py.lstrip s))); [apply rstrip_idemp|].
  apply rstrip_head, lstrip_head.
Qed.

Lemma contains_app c s t :
  Py.contains c (s +:+ t) = Py.contains c s || Py.contains c t.
Proof. induction s as [|a s IH]; simpl; [done|]. by case_decide. Qed.

(** Trimming adds no character. *)
Lemma contains_strip c s : Py.contains c s = false → Py.contains c (Py.strip s) = false.
Proof.
  intros H. unfold Py.strip.
  destruct (lstrip_suffix s) as [p Hp]. rewrite Hp, contains_app in H.
  apply orb_false_iff in H as [_ H].
  destruct (rstrip_prefix (Py.lstrip s)) as (t & Ht & _). rewrite Ht, contains_app in H.
  by apply orb_false_iff in H as [H _].
Qed.

(** ** Lower-casing *)

(** On text of the ASCII range [str.lower] reads no database. *)
Lemma lower_isascii s : Py.isascii s = true → Py.lower s = Py.lower_ascii s.
Proof. intros H. unfold Py.lower. by rewrite H. Qed.

(** ** Relations that a task keeps *)

Lemma try_task_world body model not_found failed w :
  (try_task body model not_found failed w).1 = (body w).1.
Proof. unfold try_task. destruct (body w) as [? [?|?]]; [by case_decide|done]. Qed.

Section keeps.
Context (P : DB → DB → Prop) `{!PreOrder P}.

Lemma keeps_ret {A} (a : A) : keeps P (ret a).
Proof. intros w. simpl. reflexivity. Qed.

Lemma keeps_raise {A} e : keeps P (raise (A := A) e).
Proof. intros w. simpl. reflexivity. Qed.

Lemma keeps_bind {A B} (m : Task A) (k : A → Task B) :
  keeps P m → (∀ a, keeps P (k a)) → keeps P (bind m k).
Proof.
  intros Hm Hk w. unfold bind. specialize (Hm w).
  destruct (m w) as [w1 [e|a]]; simpl in *; [done|].
  etrans; [exact Hm|apply Hk].
Qed.

Lemma keeps_try_except {A} (m : Task A) (h : exn → Task A) :
  keeps P m → (∀ e, keeps P (h e)) → keeps P (try_except m h).
Proof.
  intros Hm Hh w. unfold try_except. specialize (Hm w).
  destruct (m w) as [w1 [e|a]]; simpl in *; [|done].
  etrans; [exact Hm|apply Hh].
Qed.

Lemma keeps_storage_call : keeps P storage_call.
Proof. intros [d [[|n]|]]; simpl; reflexivity. Qed.

Lemma keeps_query {A} (f : DB → exn + A) : keeps P (query f).
Proof.
  unfold query. apply keeps_bind; [apply keeps_storage_call|].
  intros _ w. simpl. reflexivity.
Qed.

Lemma keeps_execute f : (∀ d, P d (f d)) → keeps P (execute f).
Proof.
  intros Hf. unfold execute. apply keeps_bind; [apply keeps_storage_call|].
  intros _ w. simpl. apply Hf.
Qed.

Lemma keeps_try_task body model not_found failed w :
  keeps P body → P (db w) (db (try_task body model not_found failed w).1).
Proof. intros H. rewrite try_task_world. apply H. Qed.

End keeps.

(** ** Emails that an import stores *)

Lemma try_row_world organizer skip upd (row : Row) st w :
  (try_except (import_row organizer skip upd row st)
              (λ e, import_row_except e st) w).1
  = (import_row organizer skip upd row st w).1.
Proof. unfold try_except. by destruct (import_row _ _ _ _ _ _) as [? [?|?]]. Qed.

Lemma user_get_world organizer_id w : db (user_get organizer_id w).1 = db w.
Proof. destruct w as [d [[|n]|]]; done. Qed.

Lemma user_get_returns organizer_id w w' organizer :
  user_get organizer_id w = (w', inr organizer) → organizer = organizer_id.
Proof.
  destruct w as [d [[|n]|]]; unfold user_get, query, bind, storage_call; simpl;
    try case_decide; by intros [= _ <-].
Qed.

Lemma first_by_pk_None {A} (l : list (Z * A)) : first_by_pk l = None → l = [].
Proof.
  destruct l as [|x l]; [done|]. simpl.
  destruct (first_by_pk l) as [y|]; [by destruct (x.1 <? y.1)%Z|done].
Qed.

Lemma next_pk_fresh {A} (m : gmap Z A) : m !! next_pk m = None.
Proof.
  destruct (m !! next_pk m) as [x|] eqn:E; [exfalso|done].
  apply elem_of_map_to_list in E.
  assert (∀ (l : list (Z * A)) k y, (k, y) ∈ l → (k ≤ foldr Z.max 0 (map fst l))%Z) as Hmax.
  { induction l as [|[k' y'] l IH]; intros k y; [by intros ?%elem_of_nil|].
    intros [[= -> ->]|Hin]%elem_of_cons; simpl; [lia|].
    specialize (IH k y Hin). lia. }
  apply Hmax in E. unfold next_pk in E. lia.
Qed.

Global Instance emails_kept_or_imported_preorder organizer rows :
  PreOrder (emails_kept_or_imported organizer rows).
Proof.
  split.
  - intros d. split.
    + intros pk c Hc. exists c. by split_and!.
    + intros pk c' Hc' Hnone. congruence.
  - intros d1 d2 d3 [Hkept12 Hnew12] [Hkept23 Hnew23]. split.
    + intros pk c1 Hc1. destruct (Hkept12 pk c1 Hc1) as (c2 & Hc2 & Ho & He & Hch).
      destruct (Hkept23 pk c2 Hc2) as (c3 & Hc3 & Ho' & He' & Hch').
      exists c3. split_and!; try congruence.
      intros Hne. destruct (decide (c2 = c1)) as [->|Hne2]; [by apply Hch'|].
      by apply Hch.
    + intros pk c3 Hc3 Hnone1.
      destruct (contacts d2 !! pk) as [c2|] eqn:Hc2; [|by apply Hnew23].
      destruct (Hkept23 pk c2 Hc2) as (c3' & Hc3' & Ho & He & _).
      assert (c3' = c3) as -> by congruence.
      destruct (Hnew12 pk c2 Hc2 Hnone1) as (Horg & Himp & Huniq).
      split_and!.
      * congruence.
      * by rewrite He.
      * intros pk2 c Hc Horg2 He2.
        destruct (contacts d2 !! pk2) as [x|] eqn:Hx.
        -- destruct (Hkept23 pk2 x Hx) as (c' & Hc' & Hox & Hex & _).
           assert (c' = c) as -> by congruence.
           apply (Huniq pk2 x Hx); congruence.
        -- destruct (Hnew23 pk2 c Hc Hx) as (_ & _ & Huniq2).
           symmetry. apply (Huniq2 pk c3 Hc3); congruence.
Qed.

(** The lookup and the write of a row are under one email: the row
    rewrites the contact that has it, or creates the only one. *)
Lemma reconcile_emails organizer skip upd rows (row : Row) raw st :
  row ∈ rows →
  get row "email" (Some "") = Some raw →
  email_accepted (Py.lower (Py.strip raw)) = true →
  keeps (emails_kept_or_imported organizer rows)
        (reconcile organizer skip upd row (Py.lower (Py.strip raw)) st).
Proof.
  intros Hin Hraw Hok w.
  assert (Himp : imported rows (Py.lower (Py.strip raw))) by by exists row, raw.
  assert (Hrefl : emails_kept_or_imported organizer rows (db w) (db w)) by reflexivity.
  destruct (first_by_pk (contacts_of organizer (Py.lower (Py.strip raw)) (db w)))
    as [[k existing]|] eqn:Hfound.
  - destruct (existing_contact_lookup _ _ _ _ _ Hfound) as (Hk & Ho & He).
    destruct upd, skip, w as [d [[|[|n]]|]]; simpl in *; run_import;
      rewrite ?Hfound; simpl; try exact Hrefl.
    all: split; simpl.
    all: try (intros pk c Hc; destruct (decide (k = pk)) as [<-|Hne];
      [rewrite lookup_insert_eq; eexists; split; [done|];
       assert (c = existing) as -> by congruence;
       rewrite He;
       by destruct (Py.truthy (get row "tags" (Some "")))
      |rewrite lookup_insert_ne by done; exists c; by split_and!]).
    all: intros pk c' Hc' Hnone; destruct (decide (k = pk)) as [<-|Hne];
      [congruence|rewrite lookup_insert_ne in Hc' by done; congruence].
  - pose proof (first_by_pk_None _ Hfound) as Hnone0.
    destruct w as [d [[|[|n]]|]]; simpl in *; run_import;
      rewrite ?Hfound; simpl; try exact Hrefl.
    all: split; simpl.
    all: try (intros pk c Hc; exists c; rewrite lookup_insert_ne; [by split_and!|];
      intros <-; by rewrite next_pk_fresh in Hc).
    all: intros pk c' Hc' Hnone;
      destruct (decide (next_pk (contacts d) = pk)) as [<-|Hne];
      [|rewrite lookup_insert_ne in Hc' by done; congruence].
    all: rewrite lookup_insert_eq in Hc'; injection Hc' as <-; simpl;
      split_and!; [done|done|].
    all: intros pk2 c2 Hc2 Ho2 He2;
      destruct (decide (next_pk (contacts d) = pk2)) as [|Hne2]; [done|];
      rewrite lookup_insert_ne in Hc2 by done;
      assert ((pk2, c2) ∈ contacts_of organizer (Py.lower (Py.strip raw)) d) as Hc
        by (by apply contacts_of_lookup);
      rewrite Hnone0 in Hc; by apply elem_of_nil in Hc.
Qed.

Lemma import_rows_emails organizer skip upd all rows :
  (∀ row, row ∈ rows → row ∈ all) →
  ∀ st, keeps (emails_kept_or_imported organizer all)
              (import_rows organizer skip upd rows st).
Proof.
  induction rows as [|row rows IH]; intros Hsub st; simpl.
  - keeps_with keeps_ret.
  - keeps_with keeps_bind;
      [|intros st'; apply IH; intros r Hr; apply Hsub; by apply list_elem_of_further].
    keeps_with keeps_try_except.
    + intros w.
      destruct (import_row_rejected organizer skip upd row st w)
        as [(raw & Hraw & Hok)|[e ->]]; [|reflexivity].
      rewrite import_row_accepted with (raw := raw) by done.
      apply reconcile_emails; [apply Hsub, list_elem_of_here|done..].
    + intros e w. rewrite import_row_except_raises. reflexivity.
Qed.

Lemma import_emails organizer_id rows skip upd w :
  emails_kept_or_imported organizer_id rows (db w)
    (db (process_contact_import organizer_id rows skip upd w).1).
Proof.
  unfold process_contact_import. apply keeps_try_task.
  clear w. intros w. unfold import_body. unfold bind at 1.
  pose proof (user_get_world organizer_id w) as Hu.
  destruct (user_get organizer_id w) as [w1 [e|organizer]] eqn:Hget; simpl in *.
  - rewrite Hu. reflexivity.
  - apply user_get_returns in Hget as ->. rewrite <- Hu.
    keeps_with keeps_bind; [by apply import_rows_emails|].
    intros st. keeps_with keeps_ret.
Qed.

(** ** The contact a booking creates *)

Lemma booking_contact_verbatim booking_id booking w :
  outage w = None →
  bookings (db w) !! booking_id = Some booking →
  contacts_of (Booking.organizer booking) (Booking.invitee_email booking) (db w) = [] →
  ∃ pk c,
    contacts (db w) !! pk = None
    ∧ contacts (db (create_contact_from_booking booking_id w).1) !! pk = Some c
    ∧ Contact.email c = Booking.invitee_email booking.
Proof.
  destruct w as [d o]. simpl. intros -> Hb Hnone.
  destruct (parse_name (Booking.invitee_name booking)) as [first last] eqn:Hname.
  exists (next_pk (contacts d)). eexists.
  split; [apply next_pk_fresh|].
  unfold create_contact_from_booking. rewrite try_task_world.
  unfold create_from_booking_body, booking_get.
  unfold bind at 1. rewrite query_up by done. cbn [db]. rewrite Hb.
  rewrite Hname.
  unfold bind at 1. unfold contact_get_or_create.
  unfold bind at 1. rewrite query_up by done. cbn [db]. rewrite Hnone.
  simpl. split; [apply lookup_insert_eq|done].
Qed.

(** C7, as the code has it. After an import for an organizer, whatever the
    storage does, every contact that was there is still there under its
    key with its owner and email, and the ones the import has rewritten
    belong to the organizer and have the email of a row of the batch
    trimmed and lower-cased; every contact that was not there belongs to
    the organizer and carries the email of a row trimmed and lower-cased,
    which is not empty, contains an [@] and has a dot after its last [@],
    and the organizer has no other contact with that email: the lookup is
    under the email that is stored.  The upsert from a booking that
    matches no contact stores the invitee email of the booking as it
    is. *)
Theorem import_normalises_emails_booking_upsert_does_not
    organizer_id rows skip upd w booking_id booking wb :
  emails_kept_or_imported organizer_id rows (db w)
    (db (process_contact_import organizer_id rows skip upd w).1)
  ∧ (outage wb = None →
     bookings (db wb) !! booking_id = Some booking →
     contacts_of (Booking.organizer booking) (Booking.invitee_email booking) (db wb) = [] →
     ∃ pk c,
       contacts (db wb) !! pk = None
       ∧ contacts (db (create_contact_from_booking booking_id wb).1) !! pk = Some c
       ∧ Contact.email c = Booking.invitee_email booking).
Proof.
  split; [apply import_emails|]. apply booking_contact_verbatim.
Qed.

(** ** The error list of an import *)

Lemma reconcile_errors organizer skip upd (row : Row) email st w w' st' :
  reconcile organizer skip upd row email st w = (w', inr st') → errors st' = errors st.
Proof.
  destruct (first_by_pk (contacts_of organizer email (db w))) as [[k existing]|] eqn:Hfound;
    destruct upd, skip, w as [d [[|[|n]]|]]; simpl in *; run_import;
    rewrite ?Hfound; simpl; by intros [= <- <-].
Qed.

Lemma import_row_errors organizer skip upd (row : Row) st w w' st' :
  import_row organizer skip upd row st w = (w', inr st') → errors st' = errors st.
Proof.
  destruct (import_row_rejected organizer skip upd row st w)
    as [(raw & Hraw & Hok)|[e ->]]; [|done].
  rewrite import_row_accepted with (raw := raw) by done. apply reconcile_errors.
Qed.

(** No run of the loop that reaches its end has added an error: each
    [errors.append] reads [row_num] first. *)
Lemma import_rows_errors organizer skip upd rows : ∀ st w w' st',
  import_rows organizer skip upd rows st w = (w', inr st') → errors st' = errors st.
Proof.
  induction rows as [|row rows IH]; intros st w w' st'; simpl.
  - by intros [= <- <-].
  - unfold bind, try_except.
    destruct (import_row organizer skip upd row st w) as [w1 [e|st1]] eqn:Hrow.
    + by rewrite import_row_except_raises.
    + intros H%IH. rewrite H. by eapply import_row_errors.
Qed.

Lemma import_result_status st :
  errors st = [] → import_result st !! "status" = Some (VStr "success").
Proof. intros H. unfold import_result. by rewrite H. Qed.

(** An import returns success or error, whatever the batch. *)
Lemma import_status organizer_id rows skip upd w :
  (process_contact_import organizer_id rows skip upd w).2 !! "status" = Some (VStr "success")
  ∨ (process_contact_import organizer_id rows skip upd w).2 !! "status" = Some (VStr "error").
Proof.
  unfold process_contact_import, try_task.
  destruct (import_body organizer_id rows skip upd w) as [w' [e|result]] eqn:Hbody.
  - right. by case_decide.
  - left. simpl. unfold import_body, bind in Hbody.
    destruct (user_get organizer_id w) as [w1 [e|organizer]]; [done|].
    destruct (import_rows _ _ _ _ _ _) as [w2 [e|st]] eqn:Hrows; [done|].
    apply import_rows_errors in Hrows. injection Hbody as _ <-.
    by apply import_result_status.
Qed.

(** ** The claims that the code does not meet *)

(** C1. A failure inside one row ends the batch. In a file with the header
    [first_name,email] whose first line has one field, [row.get('email',
    '')] is [None] and [.strip()] raises; the handler of the row reads
    [row_num], which is bound nowhere, so a [NameError] leaves the loop and
    the task returns status error; the second row is never processed.
    The same happens when the storage faults on the lookup of the second
    of two rows: the first row stays created and the task returns error. *)
Theorem import_row_failure_aborts_batch :
  process_contact_import 1 [Sample.short_row; Sample.dan_row] true false
    (Sample.up Sample.empty_book)
  = (Sample.up Sample.empty_book,
     error_result "Error importing contacts: name 'row_num' is not defined")
  ∧ (process_contact_import 1 [Sample.dan_row; Sample.dan_row] true false
       (Sample.failing_after 3 Sample.empty_book)).2
    = error_result "Error importing contacts: name 'row_num' is not defined"
  ∧ size (contacts (db (process_contact_import 1 [Sample.dan_row; Sample.dan_row] true false
                          (Sample.failing_after 3 Sample.empty_book)).1)) = 1%nat.
Proof. by vm_compute. Qed.

(** C4. The count a merge returns is the length of the list of ids it was
    given: with the ids 2 and 99, of which only 2 resolves, one contact is
    absorbed and [merged_count] is 2. *)
Theorem merged_count_is_length_of_ids :
  length (contacts_in [2; 99] Sample.address_book) = 1%nat
  ∧ (merge_contact_data 1 [2; 99] (Sample.up Sample.address_book)).2 !! "merged_count"
    = Some (VInt 2)
  ∧ (merge_contact_data 1 [2; 99] (Sample.up Sample.address_book)).2 !! "message"
    = Some (VStr "Merged 2 contacts into ann@x.com").
Proof. by vm_compute. Qed.

(** C5. With the owner resolved, a batch of a valid row, a row with an
    invalid email and a valid row returns status error, with no counts in
    the result, after the first row has been created. *)
Theorem import_with_invalid_row_returns_error :
  (process_contact_import 1 [Sample.a_row; Sample.bad_row; Sample.a2_row] true true
     (Sample.up Sample.empty_book)).2
  = error_result "Error importing contacts: name 'row_num' is not defined"
  ∧ error_result "Error importing contacts: name 'row_num' is not defined" !! "created_count"
    = None
  ∧ Contact.email <$>
      contacts (db (process_contact_import 1 [Sample.a_row; Sample.bad_row; Sample.a2_row]
                      true true (Sample.up Sample.empty_book)).1) !! 1
    = Some "a@x.com".
Proof. by vm_compute. Qed.

(** C8. The upsert triggered by booking 11 counts the two confirmed
    bookings of the contact, as the single-contact update does, and sets
    [last_booking_date] to the start of booking 11, 100, where the update
    sets the start of the most recent confirmed booking, 200. *)
Theorem booking_upsert_takes_date_of_trigger :
  Contact.last_booking_date <$>
    contacts (db (create_contact_from_booking 11 (Sample.up Sample.address_book)).1) !! 1
  = Some (Some 100)
  ∧ Contact.last_booking_date <$>
      contacts (db (update_single_contact_booking_stats 1 (Sample.up Sample.address_book)).1) !! 1
    = Some (Some 200)
  ∧ Contact.total_bookings <$>
      contacts (db (create_contact_from_booking 11 (Sample.up Sample.address_book)).1) !! 1
    = Some 2
  ∧ Contact.total_bookings <$>
      contacts (db (update_single_contact_booking_stats 1 (Sample.up Sample.address_book)).1) !! 1
    = Some 2.
Proof. by vm_compute. Qed.

End properties.

(** The counterexamples and the instances are on the sample data, which is
    of the ASCII range, where [str.lower] reads no database. *)
Section samples.
#[local] Existing Instance Sample.caseless.

(** ** Counterexamples *)

(** C2 does not hold of a merge whose storage faults at the save of the
    primary: the task returns error with the interaction of the duplicate
    already on the primary, the primary as it was and the duplicate still
    there. *)
Lemma merge_fault_leaves_interactions_repointed :
  (merge_contact_data 1 [2] (Sample.failing_after 3 Sample.address_book)).2 !! "status"
  = Some (VStr "error")
  ∧ db (merge_contact_data 1 [2] (Sample.failing_after 3 Sample.address_book)).1
    ≠ Sample.address_book
  ∧ interactions (db (merge_contact_data 1 [2] (Sample.failing_after 3 Sample.address_book)).1)
    = [ContactInteraction.set_contact 1 Sample.call]
  ∧ contacts (db (merge_contact_data 1 [2] (Sample.failing_after 3 Sample.address_book)).1)
    = contacts Sample.address_book.
Proof.
  split; [by vm_compute|]. split; [|by vm_compute].
  intros H. apply (f_equal interactions) in H. vm_compute in H. discriminate H.
Qed.

(** C7 does not hold: an import stores an email with two [@], and the
    upsert from a booking stores the invitee email with its capitals. *)
Lemma stored_email_with_two_at_or_capitals :
  (∃ c, contacts (db (process_contact_import 1 [Sample.two_at_row] true false
                        (Sample.up Sample.empty_book)).1) !! 1 = Some c
        ∧ Py.count "@" (Contact.email c) = 2%nat
        ∧ Py.count "@" (Contact.email c) ≠ 1%nat)
  ∧ (∃ c, contacts (db (create_contact_from_booking 12 (Sample.up Sample.empty_book)).1) !! 1
          = Some c
          ∧ Contact.email c = "Dee@X.COM"
          ∧ Py.lower (Py.strip (Contact.email c)) ≠ Contact.email c).
Proof.
  split; eexists; (split; [by vm_compute|]); (split; [by vm_compute|]);
    vm_compute; discriminate.
Qed.

(** C9 does not hold: with both flags off, a row that matches an existing
    contact leaves [skipped_count] at 0 and records nothing. *)
Lemma matching_row_without_policy_not_counted :
  (process_contact_import 1 [Sample.ann_row] false false (Sample.up Sample.address_book)).2
    !! "skipped_count" = Some (VInt 0)
  ∧ (process_contact_import 1 [Sample.ann_row] false false (Sample.up Sample.address_book)).2
    !! "skipped_count" ≠ Some (VInt 1)
  ∧ (process_contact_import 1 [Sample.ann_row] false false (Sample.up Sample.address_book)).2
    !! "errors" = Some (VList [])
  ∧ (process_contact_import 1 [Sample.ann_row] false false (Sample.up Sample.address_book)).2
    !! "message" = Some (VStr "Import completed: 0 created, 0 updated, 0 skipped").
Proof.
  split; [by vm_compute|]. split; [vm_compute; discriminate|]. by vm_compute.
Qed.

(** C3 does not hold of a row that leaves the company out: the line
    [ann@x.com,] of a file with the header [email,company] has the empty
    text for its company, and the update of [ann], whose company is Acme,
    stores it. *)
Lemma update_with_empty_cell_discards_company :
  Contact.company <$> contacts Sample.address_book !! 1 = Some (Some "Acme")
  ∧ (process_contact_import 1 [Sample.no_company_row] true true
       (Sample.up Sample.address_book)).2 !! "updated_count" = Some (VInt 1)
  ∧ Contact.company <$>
      contacts (db (process_contact_import 1 [Sample.no_company_row] true true
                      (Sample.up Sample.address_book)).1) !! 1
    = Some (Some "")
  ∧ Contact.company <$>
      contacts (db (process_contact_import 1 [Sample.no_company_row] true true
                      (Sample.up Sample.address_book)).1) !! 1
    ≠ Some (Some "Acme").
Proof.
  split; [by vm_compute|]. split; [by vm_compute|]. split; [by vm_compute|].
  vm_compute. discriminate.
Qed.

(** ** Instances *)

(** C3, as the code has it, on [ann], whose company is Acme, and a row of
    a file with the columns email and phone. *)
Lemma update_keeps_fields_of_absent_columns_witness :
  ∃ c,
    contacts (db (import_row 1 true true Sample.ann_row (mkCounters 0 0 0 [])
                    (Sample.up Sample.address_book)).1) !! 1 = Some c
    ∧ Contact.company c = Some "Acme"
    ∧ Contact.phone c = Some "555-0199".
Proof.
  destruct (update_keeps_fields_of_absent_columns 1 true Sample.ann_row (mkCounters 0 0 0 [])
              (Sample.up Sample.address_book) " Ann@X.com " 1 Sample.ann)
    as (c & Hc & Hkept & Hup); [reflexivity | reflexivity | reflexivity |].
  destruct (Hup eq_refl) as [_ Hcells]; [by_computation|].
  exists c. split; [exact Hc|].
  unfold text_fields in Hkept, Hcells.
  apply Forall_cons in Hkept as [_ Hkept]. apply Forall_cons in Hkept as [_ Hkept].
  apply Forall_cons in Hkept as [_ Hkept]. apply Forall_cons in Hkept as [Hcompany _].
  apply Forall_cons in Hcells as [_ Hcells]. apply Forall_cons in Hcells as [_ Hcells].
  apply Forall_cons in Hcells as [Hphone _].
  split; [exact Hcompany|]. exact (Hphone (Some "555-0199") eq_refl).
Defined.

(** C9, as the code has it, on [ann] and a row that matches her. *)
Lemma existing_row_without_policy_is_passed_over_witness :
  (import_row 1 false false Sample.ann_row (mkCounters 0 0 0 [])
     (Sample.up Sample.address_book)).2 = inr (mkCounters 0 0 0 [])
  ∧ db (import_row 1 false false Sample.ann_row (mkCounters 0 0 0 [])
          (Sample.up Sample.address_book)).1 = Sample.address_book.
Proof.
  apply (existing_row_without_policy_is_passed_over 1 Sample.ann_row (mkCounters 0 0 0 [])
           (Sample.up Sample.address_book) " Ann@X.com " 1 Sample.ann);
    [reflexivity | reflexivity | reflexivity | discriminate].
Defined.

(** C2, as the code has it: no contact 5 to merge into, and [bob] merged
    into [ann]. *)
Lemma merge_completes_or_finds_no_primary_witness :
  ((merge_contact_data 5 [2] (Sample.up Sample.address_book)).2 !! "status"
   = Some (VStr "error")
   ∧ db (merge_contact_data 5 [2] (Sample.up Sample.address_book)).1 = Sample.address_book)
  ∧ (merge_contact_data 1 [2; 99] (Sample.up Sample.address_book)).2 !! "status"
    = Some (VStr "success")
  ∧ (∀ id, id ∈ [2; 99] →
       contacts (db (merge_contact_data 1 [2; 99] (Sample.up Sample.address_book)).1) !! id
       = None).
Proof.
  split.
  - apply (merge_completes_or_finds_no_primary 5 [2] (Sample.up Sample.address_book)).
    reflexivity.
  - destruct (merge_completes_or_finds_no_primary 1 [2; 99] (Sample.up Sample.address_book))
      as [_ H].
    destruct (H Sample.ann) as (Hst & _ & Hdel & _);
      [reflexivity | | reflexivity | exact (conj Hst Hdel)].
    apply (bool_decide_unpack _). exact I.
Defined.

(** C6 on [ann] with [bob] and [cy] in both orders: 2 + 3 + 4 bookings,
    the latest of the dates 100 and 300. *)
Lemma merge_aggregates_order_independent_witness :
  ∃ saved saved',
    contacts (db (merge_into 1 Sample.ann [(2, Sample.bob); (3, Sample.cy)] [2; 3]
                    (Sample.up Sample.address_book)).1) !! 1 = Some saved
    ∧ contacts (db (merge_into 1 Sample.ann [(3, Sample.cy); (2, Sample.bob)] [2; 3]
                      (Sample.up Sample.address_book)).1) !! 1 = Some saved'
    ∧ Contact.total_bookings saved = 9%Z
    ∧ Contact.last_booking_date saved = Some 300%Z
    ∧ Contact.total_bookings saved' = Contact.total_bookings saved
    ∧ Contact.last_booking_date saved' = Contact.last_booking_date saved.
Proof.
  apply (merge_aggregates_order_independent 1 Sample.ann
           [(2, Sample.bob); (3, Sample.cy)] [(3, Sample.cy); (2, Sample.bob)] [2; 3]
           (Sample.up Sample.address_book));
    [reflexivity | apply (bool_decide_unpack _); exact I | apply perm_swap].
Defined.

(** C10 on [ann] and two ids that name no contact. *)
Lemma merge_nothing_is_identity_witness :
  db (merge_contact_data 1 [98; 99] (Sample.up Sample.address_book)).1 = Sample.address_book
  ∧ (merge_contact_data 1 [98; 99] (Sample.up Sample.address_book)).2 !! "status"
    = Some (VStr "success").
Proof.
  destruct (merge_nothing_is_identity 1 [98; 99] Sample.ann (Sample.up Sample.address_book))
    as [Hdb Hst].
  - reflexivity.
  - intros id Hid. apply (bool_decide_unpack _) in Hid || idtac.
    repeat (apply elem_of_cons in Hid as [->|Hid]; [reflexivity|]).
    by apply elem_of_nil in Hid.
  - exact (conj Hdb (Hst eq_refl)).
Defined.

(** C7, as the code has it, on a row whose email has capitals and two
    [@], and on a booking whose invitee email has capitals. *)
Lemma import_normalises_emails_booking_upsert_does_not_witness :
  imported [Sample.two_at_row] "a@b@c.d"
  ∧ (∃ pk c,
       contacts Sample.empty_book !! pk = None
       ∧ contacts (db (create_contact_from_booking 12 (Sample.up Sample.empty_book)).1) !! pk
         = Some c
       ∧ Contact.email c = "Dee@X.COM").
Proof.
  destruct (import_normalises_emails_booking_upsert_does_not
              1 [Sample.two_at_row] true false (Sample.up Sample.empty_book)
              12 Sample.booking12 (Sample.up Sample.empty_book)) as [[_ Hnew] Hbooking].
  split.
  - destruct (Hnew 1 (Contact.mk 1 (Some "") (Some "") "a@b@c.d" (Some "") (Some "")
                         (Some "") (Some "") [] 0 None) eq_refl eq_refl)
      as (_ & H & _). exact H.
  - apply Hbooking; reflexivity.
Defined.

End samples.

(** * Further properties *)

(** These too are proved for every Unicode character database. *)
Section further_properties.
Context {unicode_database : Py.Unicode}.

Global Instance other_tables_same_preorder : PreOrder other_tables_same.
Proof.
  split.
  - by intros d.
  - intros d1 d2 d3 (? & ? & ?) (? & ? & ?). unfold other_tables_same. split_and!; congruence.
Qed.

Lemma set_contact_twice pk i :
  ContactInteraction.set_contact pk (ContactInteraction.set_contact pk i)
  = ContactInteraction.set_contact pk i.
Proof. done. Qed.

Global Instance merge_frame_preorder pk ids : PreOrder (merge_frame pk ids).
Proof.
  split.
  - intros d. unfold merge_frame. split_and!; try done.
    apply Forall_Forall2_diag, Forall_forall. by left.
  - intros d1 d2 d3 (Hu & Hb & Hc & Hi) (Hu' & Hb' & Hc' & Hi').
    unfold merge_frame. split_and!; try congruence.
    + intros k ??. rewrite Hc', Hc by done. done.
    + eapply Forall2_trans; [|exact Hi|exact Hi'].
      intros i1 i2 i3 [->| ->] [->| ->]; auto.
Qed.

(** ** What a merge leaves alone *)



Lemma merge_frame_repoint pk ids k d :
  merge_frame pk ids d (with_interactions (map (repoint k pk)) d).
Proof.
  unfold merge_frame. split_and!; try done. simpl.
  apply Forall2_fmap_r, Forall_Forall2_diag, Forall_forall. intros i _.
  unfold compose, repoint. case_decide; auto.
Qed.

Lemma merge_frame_save pk ids c d :
  merge_frame pk ids d (with_contacts (insert pk c) d).
Proof.
  unfold merge_frame. split_and!; try done.
  - intros k Hk _. simpl. by rewrite lookup_insert_ne.
  - apply Forall_Forall2_diag, Forall_forall. by left.
Qed.

Lemma lookup_delete_others (ids : list Z) (m : gmap Z Contact.t) k :
  k ∉ ids → filter (λ x, x.1 ∉ ids) m !! k = m !! k.
Proof.
  intros Hk. destruct (m !! k) as [c|] eqn:E.
  - by apply map_lookup_filter_Some_2.
  - apply map_lookup_filter_None_2. by left.
Qed.

Lemma merge_frame_delete pk (ids : list Z) d :
  merge_frame pk ids d (with_contacts (filter (λ x, x.1 ∉ ids)) d).
Proof.
  unfold merge_frame. split_and!; try done.
  - intros k _ Hk. simpl. by apply lookup_delete_others.
  - apply Forall_Forall2_diag, Forall_forall. by left.
Qed.

Lemma merge_duplicates_frame pk ids dups : ∀ m,
  keeps (merge_frame pk ids) (merge_duplicates pk dups m).
Proof.
  induction dups as [|[k d] dups IH]; intros m; simpl; [keeps_with keeps_ret|].
  keeps_with keeps_bind; [|apply IH].
  unfold merge_duplicate. keeps_with keeps_bind; [|intros; keeps_with keeps_ret].
  keeps_with keeps_execute. apply merge_frame_repoint.
Qed.

(** X1. Whatever the storage does, a merge into [pk] of contacts [ids]
    that [pk] is not among leaves the users, the bookings and every
    contact other than [pk] and those named by [ids] as they were, and of
    an interaction it changes nothing but the contact, and that to [pk]
    only. *)
Theorem merge_touches_primary_and_duplicates_only pk (ids : list Z) w :
  pk ∉ ids →
  merge_frame pk ids (db w) (db (merge_contact_data pk ids w).1).
Proof.
  intros _. unfold merge_contact_data. apply keeps_try_task.
  unfold merge_body. keeps_with keeps_bind; [keeps_with keeps_query|].
  intros primary. keeps_with keeps_bind; [keeps_with keeps_query|].
  intros dups. unfold merge_into.
  keeps_with keeps_bind; [apply merge_duplicates_frame|].
  intros m. keeps_with keeps_bind.
  { keeps_with keeps_execute. intros d. apply merge_frame_save. }
  intros _. keeps_with keeps_bind; [|intros; keeps_with keeps_ret].
  keeps_with keeps_execute. intros d. apply merge_frame_delete.
Qed.

(** ** What an import leaves alone *)

Global Instance import_frame_preorder organizer upd : PreOrder (import_frame organizer upd).
Proof.
  split.
  - intros d. split; [reflexivity|]. intros k c Hc. exists c. by split_and!.
  - intros d1 d2 d3 [H12 Hc12] [H23 Hc23]. split; [by etrans|].
    intros k c1 Hc1.
    destruct (Hc12 k c1 Hc1) as (c2 & Hc2 & Ho & He & Ht & Hl & Hsame).
    destruct (Hc23 k c2 Hc2) as (c3 & Hc3 & Ho' & He' & Ht' & Hl' & Hsame').
    exists c3. split_and!; try congruence.
    intros Hcase. rewrite <- (Hsame Hcase). apply Hsame'.
    by rewrite Ho.
Qed.

Lemma reconcile_frame organizer skip upd (row : Row) email st :
  keeps (import_frame organizer upd) (reconcile organizer skip upd row email st).
Proof.
  intros w.
  assert (Hrefl : import_frame organizer upd (db w) (db w)) by reflexivity.
  destruct (first_by_pk (contacts_of organizer email (db w))) as [[k existing]|] eqn:Hfound.
  - destruct (existing_contact_lookup _ _ _ _ _ Hfound) as (Hk & Ho & _).
    destruct upd, skip, w as [d [[|[|n]]|]]; simpl in *; run_import;
      rewrite ?Hfound; simpl; try exact Hrefl.
    all: split; [done|]; intros k' c Hc; simpl;
      destruct (decide (k = k')) as [<-|Hne];
      [rewrite lookup_insert_eq; eexists; split; [done|];
       assert (c = existing) as -> by congruence;
       destruct (Py.truthy (get row "tags" (Some ""))); simpl; split_and!; try done;
       intros [?|?]; congruence
      |rewrite lookup_insert_ne by done; exists c; by split_and!].
  - destruct w as [d [[|[|n]]|]]; simpl in *; run_import;
      rewrite ?Hfound; simpl; try exact Hrefl.
    all: split; [done|]; intros k' c Hc; simpl;
      exists c; rewrite lookup_insert_ne; [by split_and!|];
      intros <-; by rewrite next_pk_fresh in Hc.
Qed.

Lemma import_row_keeps (P : DB → DB → Prop) `{!PreOrder P} organizer skip upd :
  (∀ row email st, keeps P (reconcile organizer skip upd row email st)) →
  ∀ row st, keeps P (import_row organizer skip upd row st).
Proof.
  intros Hrec row st w.
  destruct (import_row_rejected organizer skip upd row st w)
    as [(raw & Hraw & Hok)|[e ->]]; [|reflexivity].
  rewrite import_row_accepted with (raw := raw) by done. apply Hrec.
Qed.

Lemma import_rows_keeps (P : DB → DB → Prop) `{!PreOrder P} organizer skip upd :
  (∀ row email st, keeps P (reconcile organizer skip upd row email st)) →
  ∀ rows st, keeps P (import_rows organizer skip upd rows st).
Proof.
  intros Hrec rows. induction rows as [|row rows IH]; intros st; simpl.
  - keeps_with keeps_ret.
  - keeps_with keeps_bind; [|apply IH].
    keeps_with keeps_try_except; [by apply import_row_keeps|].
    intros e w. rewrite import_row_except_raises. reflexivity.
Qed.

Lemma import_keeps (P : DB → DB → Prop) `{!PreOrder P} organizer_id skip upd :
  (∀ row email st, keeps P (reconcile organizer_id skip upd row email st)) →
  ∀ rows w, P (db w) (db (process_contact_import organizer_id rows skip upd w).1).
Proof.
  intros Hrec rows w. unfold process_contact_import. apply keeps_try_task.
  clear w. intros w. unfold import_body. unfold bind at 1.
  pose proof (user_get_world organizer_id w) as Hu.
  destruct (user_get organizer_id w) as [w1 [e|organizer]] eqn:Hget; simpl in *.
  - rewrite Hu. reflexivity.
  - apply user_get_returns in Hget as ->. rewrite <- Hu.
    keeps_with keeps_bind; [by apply import_rows_keeps|].
    intros st. keeps_with keeps_ret.
Qed.

(** X2. Whatever the storage does and whatever the rows, an import for an
    organizer leaves the users, interactions and bookings as they were,
    deletes no contact, and of a contact that was there changes neither
    the owner, the email nor the booking statistics; a contact of another
    organizer it leaves as it was, and so it leaves every contact when
    update_existing is off. *)
Theorem import_touches_own_contacts_only organizer_id rows skip upd w :
  import_frame organizer_id upd (db w)
    (db (process_contact_import organizer_id rows skip upd w).1).
Proof.
  apply (import_keeps (import_frame organizer_id upd)). intros. apply reconcile_frame.
Qed.

(** ** An import with the storage up *)

Lemma import_row_of_email organizer skip upd (row : Row) st w email :
  row_email row = Some email →
  import_row organizer skip upd row st w = reconcile organizer skip upd row email st w.
Proof.
  unfold row_email. destruct (get row "email" (Some "")) as [raw|] eqn:Hraw; [|done].
  destruct (email_accepted _) eqn:Hok; [|done]. intros [= <-].
  by apply import_row_accepted.
Qed.

Lemma import_row_no_email organizer skip upd (row : Row) st w :
  row_email row = None → ∃ e, import_row organizer skip upd row st w = (w, inl e).
Proof.
  intros Hnone.
  destruct (import_row_rejected organizer skip upd row st w)
    as [(raw & Hraw & Hok)|H]; [|done].
  unfold row_email in Hnone. by rewrite Hraw, Hok in Hnone.
Qed.

Lemma has_contact_found organizer email d :
  has_contact organizer email d ↔ is_Some (first_by_pk (contacts_of organizer email d)).
Proof.
  split.
  - intros (k & c & Hc & Ho & He).
    destruct (first_by_pk _) eqn:E; [done|]. apply first_by_pk_None in E.
    assert ((k, c) ∈ contacts_of organizer email d) as Hin by by apply contacts_of_lookup.
    rewrite E in Hin. by apply elem_of_nil in Hin.
  - intros [[k c] (Hc & Ho & He)%existing_contact_lookup]. by exists k, c.
Qed.

(** With the storage up, the lookup and the write of a row go through:
    the row is counted once, unless both flags are off and the contact is
    there, and the error list stays as it is. *)
Lemma reconcile_up organizer skip upd (row : Row) email st w :
  outage w = None →
  ∃ w' st',
    reconcile organizer skip upd row email st w = (w', inr st')
    ∧ outage w' = None
    ∧ errors st' = errors st
    ∧ has_contact organizer email (db w')
    ∧ (0 ≤ created_count st' - created_count st
       ∧ 0 ≤ updated_count st' - updated_count st
       ∧ 0 ≤ skipped_count st' - skipped_count st)%Z
    ∧ (tally st ≤ tally st' ≤ tally st + 1)%Z
    ∧ (skip || upd = true → tally st' = tally st + 1)%Z.
Proof.
  destruct w as [d o]. simpl. intros ->.
  destruct (first_by_pk (contacts_of organizer email d)) as [[k existing]|] eqn:Hfound.
  - destruct (existing_contact_lookup _ _ _ _ _ Hfound) as (Hk & Ho & He).
    destruct upd, skip; run_import; rewrite Hfound; simpl;
      eexists _, _; (split; [reflexivity|]); simpl; unfold tally; simpl;
      split_and!; try done; try lia.
    all: try by exists k, existing.
    all: exists k; eexists; split; [apply lookup_insert_eq|];
      by destruct (Py.truthy (get row "tags" (Some ""))).
  - run_import; rewrite Hfound; simpl.
    eexists _, _; (split; [reflexivity|]); simpl; unfold tally; simpl.
    split_and!; try done; try lia.
    eexists _, _. split; [apply lookup_insert_eq|done].
Qed.

(** With the storage up, the loop ends with the rows counted if every row
    has an acceptable email, and with the [NameError] of [row_num] if one
    has not. *)
Lemma import_rows_up organizer skip upd rows : ∀ st w,
  outage w = None →
  (Forall (λ row, is_Some (row_email row)) rows →
   ∃ w' st',
     import_rows organizer skip upd rows st w = (w', inr st')
     ∧ outage w' = None
     ∧ errors st' = errors st
     ∧ (created_count st ≤ created_count st'
        ∧ updated_count st ≤ updated_count st'
        ∧ skipped_count st ≤ skipped_count st')%Z
     ∧ (tally st ≤ tally st' ≤ tally st + len rows)%Z
     ∧ (skip || upd = true → tally st' = tally st + len rows)%Z)
  ∧ (Exists (λ row, row_email row = None) rows →
     ∃ w', import_rows organizer skip upd rows st w = (w', inl (NameError "row_num"))).
Proof.
  induction rows as [|row rows IH]; intros st w Hw.
  - split.
    + intros _. exists w, st. unfold len. simpl. split_and!; try done; try lia.
    + by intros ?%Exists_nil.
  - simpl. unfold bind, try_except.
    destruct (row_email row) as [email|] eqn:Hrow.
    + rewrite (import_row_of_email _ _ _ _ _ _ email) by done.
      destruct (reconcile_up organizer skip upd row email st w Hw)
        as (w1 & st1 & -> & Hw1 & He1 & _ & Hc1 & Ht1 & Hs1).
      destruct (IH st1 w1 Hw1) as [Hall Hsome]. split.
      * intros Hrows. apply Forall_cons in Hrows as [_ Hrows].
        destruct (Hall Hrows) as (w' & st' & -> & Hw' & He' & Hc' & Ht' & Hs').
        exists w', st'. unfold len in *. simpl length. split_and!; try done; try lia.
        -- congruence.
        -- intros Hflags. rewrite (Hs' Hflags), (Hs1 Hflags). lia.
      * intros [Hbad|Hbad]%Exists_cons; [congruence|]. by apply Hsome.
    + destruct (import_row_no_email organizer skip upd row st w Hrow) as [e ->].
      rewrite import_row_except_raises. split.
      * intros [[? ?] _]%Forall_cons. congruence.
      * intros _. by exists w.
Qed.

Lemma user_get_up organizer_id w :
  outage w = None → organizer_id ∈ users (db w) →
  user_get organizer_id w = (w, inr organizer_id).
Proof.
  intros Hw Hin. unfold user_get. rewrite query_up by done. by rewrite decide_True.
Qed.

(** X3. With the organizer known and the storage up, an import of rows
    that all have an acceptable email and come from lines with a field
    for every column returns success with an empty error list and counts
    that are not negative; the counts add up to the number of rows when
    skip_duplicates or update_existing is on, and to no more when both are
    off. *)
Theorem import_of_accepted_rows_counts_them organizer_id rows skip upd w :
  organizer_id ∈ users (db w) →
  outage w = None →
  Forall complete rows →
  Forall (λ row, is_Some (row_email row)) rows →
  ∃ created updated skipped,
    (process_contact_import organizer_id rows skip upd w).2
    = {[ "status" := VStr "success";
         "message" := VStr ("Import completed: " +:+ pretty created +:+ " created, "
                            +:+ pretty updated +:+ " updated, "
                            +:+ pretty skipped +:+ " skipped");
         "created_count" := VInt created;
         "updated_count" := VInt updated;
         "skipped_count" := VInt skipped;
         "errors" := VList [] ]}
    ∧ (0 ≤ created ∧ 0 ≤ updated ∧ 0 ≤ skipped)%Z
    ∧ (created + updated + skipped ≤ len rows)%Z
    ∧ (skip || upd = true → created + updated + skipped = len rows)%Z.
Proof.
  intros Hin Hw _ Hrows.
  destruct (import_rows_up organizer_id skip upd rows (mkCounters 0 0 0 []) w Hw)
    as [Hall _].
  destruct (Hall Hrows) as (w' & st' & Hrun & _ & He & Hc & Ht & Hs).
  exists (created_count st'), (updated_count st'), (skipped_count st').
  unfold process_contact_import, try_task, import_body.
  unfold bind at 1. rewrite user_get_up by done.
  unfold bind at 1. rewrite Hrun. unfold ret. cbn [snd].
  unfold tally in *. simpl in *. split_and!; try lia.
  - unfold import_result. by rewrite He.
  - intros H. specialize (Hs H). lia.
Qed.

(** X4. With the organizer known and the storage up, an import in which
    some row has no acceptable email, be it missing, empty, without [@] or
    without a dot after the last [@], returns status error with the
    message of the [NameError] on [row_num], and no counts. *)
Theorem import_with_rejected_row_fails organizer_id rows skip upd w :
  organizer_id ∈ users (db w) →
  outage w = None →
  Exists (λ row, row_email row = None) rows →
  (process_contact_import organizer_id rows skip upd w).2
  = error_result "Error importing contacts: name 'row_num' is not defined".
Proof.
  intros Hin Hw Hrows.
  destruct (import_rows_up organizer_id skip upd rows (mkCounters 0 0 0 []) w Hw)
    as [_ Hsome].
  destruct (Hsome Hrows) as (w' & Hrun).
  unfold process_contact_import, try_task, import_body.
  unfold bind at 1. rewrite user_get_up by done.
  unfold bind at 1. by rewrite Hrun.
Qed.

(** X5. An import for an organizer that does not exist changes no table
    and returns status error, with the message that the organizer is not
    found when the storage is up. *)
Theorem import_for_unknown_organizer organizer_id rows skip upd w :
  organizer_id ∉ users (db w) →
  db (process_contact_import organizer_id rows skip upd w).1 = db w
  ∧ (process_contact_import organizer_id rows skip upd w).2 !! "status"
    = Some (VStr "error")
  ∧ (outage w = None →
     (process_contact_import organizer_id rows skip upd w).2
     = error_result ("Organizer " +:+ pretty organizer_id +:+ " not found")).
Proof.
  intros Hin. unfold process_contact_import, try_task, import_body, user_get.
  destruct w as [d [[|n]|]]; simpl in *; run_storage;
    rewrite ?decide_False by done; simpl; by split_and!.
Qed.

(** ** Importing a batch again *)

Lemma has_contact_kept organizer organizer' email d d' :
  import_frame organizer' false d d' →
  has_contact organizer email d → has_contact organizer email d'.
Proof.
  intros [_ Hc] (k & c & Hk & Ho & He).
  destruct (Hc k c Hk) as (c' & Hk' & _ & _ & _ & _ & Hsame).
  rewrite (Hsame (or_intror eq_refl)) in Hk'. by exists k, c.
Qed.

Lemma covered_kept organizer organizer' rows d d' :
  import_frame organizer' false d d' →
  covered organizer rows d → covered organizer rows d'.
Proof.
  intros Hf. induction rows as [|row rows IH]; simpl; [done|].
  destruct (row_email row); [|done].
  intros [H1 H2]. split; [by eapply has_contact_kept|by apply IH].
Qed.

(** After a pass without update_existing and with the storage up, the
    rows that were reached have their contacts, and the storage is up. *)
Lemma import_rows_cover organizer skip rows : ∀ st w,
  outage w = None →
  outage (import_rows organizer skip false rows st w).1 = None
  ∧ covered organizer rows (db (import_rows organizer skip false rows st w).1).
Proof.
  induction rows as [|row rows IH]; intros st w Hw; [done|].
  pose proof (import_rows_keeps (import_frame organizer false) organizer skip false
                (λ row email st, reconcile_frame organizer skip false row email st)
                rows) as Hkeeps.
  simpl. unfold bind, try_except.
  destruct (row_email row) as [email|] eqn:Hrow.
  - rewrite (import_row_of_email _ _ _ _ _ _ email) by done.
    destruct (reconcile_up organizer skip false row email st w Hw)
      as (w1 & st1 & -> & Hw1 & _ & Hhas & _).
    destruct (IH st1 w1 Hw1) as [Hout Hcov]. split; [done|]. split; [|done].
    eapply has_contact_kept; [apply Hkeeps|done].
  - destruct (import_row_no_email organizer skip false row st w Hrow) as [e ->].
    by rewrite import_row_except_raises.
Qed.

(** A pass over rows that have their contacts writes nothing, and counts
    every row as skipped when skip_duplicates is on. *)
Lemma import_rows_covered organizer skip rows : ∀ st w,
  outage w = None →
  covered organizer rows (db w) →
  db (import_rows organizer skip false rows st w).1 = db w
  ∧ (Forall (λ row, is_Some (row_email row)) rows →
     (import_rows organizer skip false rows st w).2
     = inr (mkCounters (created_count st) (updated_count st)
              (if skip then skipped_count st + len rows else skipped_count st)
              (errors st))).
Proof.
  induction rows as [|row rows IH]; intros st w Hw Hcov.
  - split; [done|]. intros _. simpl. unfold ret, len. simpl.
    destruct st, skip; simpl; do 2 f_equal; lia.
  - simpl in *. unfold bind, try_except.
    destruct (row_email row) as [email|] eqn:Hrow.
    + destruct Hcov as [[[k c] Hfound]%has_contact_found Hcov].
      rewrite (import_row_of_email _ _ _ _ _ _ email) by done.
      assert (reconcile organizer skip false row email st w
              = (w, inr (if skip
                         then mkCounters (created_count st) (updated_count st)
                                (skipped_count st + 1) (errors st)
                         else st))) as ->.
      { destruct w as [d o]. simpl in *. subst o.
        destruct skip; run_import; by rewrite Hfound. }
      destruct (IH (if skip
                    then mkCounters (created_count st) (updated_count st)
                           (skipped_count st + 1) (errors st)
                    else st) w Hw Hcov) as [Hdb Hres].
      split; [done|]. intros [_ Hrows]%Forall_cons. rewrite (Hres Hrows).
      unfold len. destruct skip; simpl; [|done]. do 2 f_equal. lia.
    + destruct (import_row_no_email organizer skip false row st w Hrow) as [e ->].
      rewrite import_row_except_raises. split; [done|].
      intros [[? ?] _]%Forall_cons. congruence.
Qed.

(** X6. With the organizer known, the storage up and update_existing off,
    importing a batch a second time writes nothing, whatever the rows and
    whichever way skip_duplicates is set in either pass; and if every row
    has an acceptable email and comes from a line with a field for every
    column, and skip_duplicates is on, the second pass returns success
    with nothing created, nothing updated and every row skipped. *)
Theorem import_again_changes_nothing organizer_id rows skip skip' w :
  organizer_id ∈ users (db w) →
  outage w = None →
  db (process_contact_import organizer_id rows skip' false
        (process_contact_import organizer_id rows skip false w).1).1
  = db (process_contact_import organizer_id rows skip false w).1
  ∧ (Forall complete rows →
     Forall (λ row, is_Some (row_email row)) rows →
     (process_contact_import organizer_id rows true false
        (process_contact_import organizer_id rows skip false w).1).2
     = {[ "status" := VStr "success";
          "message" := VStr ("Import completed: 0 created, 0 updated, "
                             +:+ pretty (len rows) +:+ " skipped");
          "created_count" := VInt 0;
          "updated_count" := VInt 0;
          "skipped_count" := VInt (len rows);
          "errors" := VList [] ]}).
Proof.
  intros Hin Hw.
  destruct (import_rows_cover organizer_id skip rows (mkCounters 0 0 0 []) w Hw)
    as [Hout Hcov].
  set (w1 := (process_contact_import organizer_id rows skip false w).1).
  assert (Hw1 : w1 = (import_rows organizer_id skip false rows (mkCounters 0 0 0 []) w).1).
  { unfold w1, process_contact_import. rewrite try_task_world.
    unfold import_body. unfold bind at 1. rewrite user_get_up by done.
    unfold bind, ret. by destruct (import_rows _ _ _ _ _ _) as [? [?|?]]. }
  rewrite <- Hw1 in Hout, Hcov.
  assert (Hin1 : organizer_id ∈ users (db w1)).
  { destruct (import_keeps (import_frame organizer_id false) organizer_id skip false
                (λ row email st, reconcile_frame organizer_id skip false row email st)
                rows w) as [(Hu & _) _]. fold w1 in Hu. by rewrite Hu. }
  assert (Hbody : ∀ sk,
    import_body organizer_id rows sk false w1
    = (st <- import_rows organizer_id sk false rows (mkCounters 0 0 0 []) ;;
       ret (import_result st)) w1).
  { intros sk. unfold import_body. unfold bind at 1. by rewrite user_get_up. }
  split.
  - destruct (import_rows_covered organizer_id skip' rows (mkCounters 0 0 0 []) w1 Hout Hcov)
      as [Hdb _].
    unfold process_contact_import. rewrite try_task_world, Hbody.
    unfold bind, ret.
    by destruct (import_rows organizer_id skip' false rows (mkCounters 0 0 0 []) w1)
      as [? [?|?]].
  - intros _ Hrows.
    destruct (import_rows_covered organizer_id true rows (mkCounters 0 0 0 []) w1 Hout Hcov)
      as [_ Hres]. specialize (Hres Hrows).
    unfold process_contact_import, try_task. rewrite Hbody. unfold bind, ret.
    destruct (import_rows organizer_id true false rows (mkCounters 0 0 0 []) w1)
      as [w2 [e|st]]; simpl in *; [done|].
    injection Hres as ->. done.
Qed.

(** ** The tags an import writes *)

Lemma split_pieces c s : Forall (λ p, Py.contains c p = false) (Py.split c s).
Proof.
  induction s as [|a s IH]; simpl; [by constructor|].
  case_decide as Ha.
  - by constructor.
  - destruct (Py.split c s) as [|h t]; [by constructor; simpl; rewrite ?decide_False|].
    apply Forall_cons in IH as [Hh Ht]. constructor; [|done].
    simpl. by rewrite decide_False.
Qed.

Lemma parse_tags_clean s : Forall clean_tag (parse_tags s).
Proof.
  unfold parse_tags. apply Forall_forall. intros tag [Hne Hin]%list_elem_of_filter.
  apply list_elem_of_In, in_map_iff in Hin as (piece & <- & Hin%list_elem_of_In).
  split_and!.
  - by destruct (Py.strip piece).
  - apply strip_idemp.
  - apply contains_strip.
    by eapply (proj1 (Forall_forall _ _) (split_pieces "," s)).
Qed.

Global Instance tags_kept_or_clean_preorder : PreOrder tags_kept_or_clean.
Proof.
  split.
  - intros d k c Hc. left. eauto.
  - intros d1 d2 d3 H12 H23 k c3 Hc3.
    destruct (H23 k c3 Hc3) as [(c2 & Hc2 & E2)|Hclean]; [|by right].
    destruct (H12 k c2 Hc2) as [(c1 & Hc1 & E1)|Hclean].
    + left. exists c1. split; [done|congruence].
    + right. by rewrite <- E2.
Qed.

Lemma reconcile_tags organizer skip upd (row : Row) email st :
  keeps tags_kept_or_clean (reconcile organizer skip upd row email st).
Proof.
  intros w.
  assert (Hrefl : tags_kept_or_clean (db w) (db w)) by reflexivity.
  destruct (first_by_pk (contacts_of organizer email (db w))) as [[k existing]|] eqn:Hfound.
  - destruct (existing_contact_lookup _ _ _ _ _ Hfound) as (Hk & _ & _).
    destruct upd, skip, w as [d [[|[|n]]|]]; simpl in *; run_import;
      rewrite ?Hfound; simpl; try exact Hrefl.
    all: intros k' c'; simpl; destruct (decide (k = k')) as [<-|Hne];
      [rewrite lookup_insert_eq; intros [= <-];
       destruct (Py.truthy (get row "tags" (Some ""))); simpl;
       [right; apply parse_tags_clean|left; eauto]
      |rewrite lookup_insert_ne by done; intros H; left; eauto].
  - destruct w as [d [[|[|n]]|]]; simpl in *; run_import;
      rewrite ?Hfound; simpl; try exact Hrefl.
    all: intros k' c'; simpl;
      destruct (decide (next_pk (contacts d) = k')) as [<-|Hne];
      [rewrite lookup_insert_eq; intros [= <-]; right; simpl;
       destruct (Py.truthy (get row "tags" (Some ""))); [apply parse_tags_clean|constructor]
      |rewrite lookup_insert_ne by done; intros H; left; eauto].
Qed.

(** X7. Whatever the storage does and whatever the rows, after an import
    every contact has the tags it had before, or a list of tags that are
    not empty, carry no space around them and contain no comma. *)
Theorem import_writes_clean_tags organizer_id rows skip upd w :
  tags_kept_or_clean (db w) (db (process_contact_import organizer_id rows skip upd w).1).
Proof. apply (import_keeps tags_kept_or_clean). intros. apply reconcile_tags. Qed.

(** ** The identity of contacts under an import *)

Global Instance keeps_identity_preorder : PreOrder keeps_identity.
Proof. split; unfold keeps_identity; [intros d; tauto|intros d1 d2 d3; tauto]. Qed.

Lemma unique_identity_rewrite d k existing c :
  contacts d !! k = Some existing →
  Contact.organizer c = Contact.organizer existing →
  Contact.email c = Contact.email existing →
  unique_identity d → unique_identity (with_contacts (insert k c) d).
Proof.
  intros Hk Ho He Hu.
  assert (∀ k' c', <[k:=c]> (contacts d) !! k' = Some c' →
                   ∃ c0, contacts d !! k' = Some c0
                         ∧ Contact.organizer c' = Contact.organizer c0
                         ∧ Contact.email c' = Contact.email c0) as Hback.
  { intros k' c'. destruct (decide (k = k')) as [<-|Hne].
    - rewrite lookup_insert_eq. intros [= <-]. eauto.
    - rewrite lookup_insert_ne by done. eauto. }
  intros k1 k2 c1 c2 H1 H2 Eo Ee. simpl in *.
  destruct (Hback _ _ H1) as (c1' & H1' & Eo1 & Ee1).
  destruct (Hback _ _ H2) as (c2' & H2' & Eo2 & Ee2).
  apply (Hu k1 k2 c1' c2'); congruence.
Qed.

Lemma unique_identity_new d c :
  contacts_of (Contact.organizer c) (Contact.email c) d = [] →
  unique_identity d →
  unique_identity (with_contacts (insert (next_pk (contacts d)) c) d).
Proof.
  intros Hnone Hu.
  assert (∀ k c0, contacts d !! k = Some c0 →
                  Contact.organizer c0 = Contact.organizer c →
                  Contact.email c0 = Contact.email c → False) as Hno.
  { intros k c0 Hk Ho He.
    assert ((k, c0) ∈ contacts_of (Contact.organizer c) (Contact.email c) d) as Hin
      by by apply contacts_of_lookup.
    rewrite Hnone in Hin. by apply elem_of_nil in Hin. }
  intros k1 k2 c1 c2. simpl.
  destruct (decide (next_pk (contacts d) = k1)) as [<-|H1],
           (decide (next_pk (contacts d) = k2)) as [<-|H2];
    rewrite ?lookup_insert_eq, ?lookup_insert_ne by done; try done.
  - intros [= <-] Hc2 Ho He. destruct (Hno _ _ Hc2); congruence.
  - intros Hc1 [= <-] Ho He. destruct (Hno _ _ Hc1); congruence.
  - apply Hu.
Qed.

Lemma reconcile_identity organizer skip upd (row : Row) email st :
  keeps keeps_identity (reconcile organizer skip upd row email st).
Proof.
  intros w Hu.
  destruct (first_by_pk (contacts_of organizer email (db w))) as [[k existing]|] eqn:Hfound.
  - destruct (existing_contact_lookup _ _ _ _ _ Hfound) as (Hk & _ & _).
    destruct upd, skip, w as [d [[|[|n]]|]]; simpl in *; run_import;
      rewrite ?Hfound; simpl; try exact Hu.
    all: apply unique_identity_rewrite with (existing := existing); try done;
      by destruct (Py.truthy (get row "tags" (Some ""))).
  - pose proof (first_by_pk_None _ Hfound) as Hnone.
    destruct w as [d [[|[|n]]|]]; simpl in *; run_import; rewrite ?Hfound; simpl;
      try exact Hu.
    all: by apply unique_identity_new.
Qed.

(** X8. Whatever the storage does and whatever the rows, if no two
    contacts share organizer and email before an import, none do after
    it: a row creates a contact only when its organizer has none with
    that email, and an update changes neither. *)
Theorem import_keeps_identity_unique organizer_id rows skip upd w :
  unique_identity (db w) →
  unique_identity (db (process_contact_import organizer_id rows skip upd w).1).
Proof.
  apply (import_keeps keeps_identity organizer_id skip upd). intros. apply reconcile_identity.
Qed.

(** ** Substrings *)

Lemma startswith_refl s : Py.startswith s s = true.
Proof. induction s as [|a s IH]; simpl; [done|]. by rewrite decide_True. Qed.

Lemma startswith_app p t : Py.startswith p (p +:+ t) = true.
Proof. induction p as [|a p IH]; simpl; [done|]. by rewrite decide_True. Qed.

Lemma startswith_app_r p s t :
  Py.startswith p s = true → Py.startswith p (s +:+ t) = true.
Proof.
  revert s. induction p as [|a p IH]; intros s; [done|].
  destruct s as [|b s]; simpl; [done|]. case_decide; [apply IH|done].
Qed.

Lemma startswith_trans p s t :
  Py.startswith p s = true → Py.startswith s t = true → Py.startswith p t = true.
Proof.
  revert s t. induction p as [|a p IH]; intros s t; [done|].
  destruct s as [|b s]; simpl; [done|]. destruct t as [|c t]; simpl; [by case_decide|].
  repeat case_decide; subst; try done. apply IH.
Qed.

Lemma substring_of_refl s : Py.substring_of s s = true.
Proof. destruct s; simpl; [done|]. by rewrite decide_True, startswith_refl. Qed.

Lemma substring_of_cons n a s :
  Py.substring_of n s = true → Py.substring_of n (String a s) = true.
Proof. intros H. simpl. rewrite H. apply orb_true_r. Qed.

Lemma substring_of_app_l n t s :
  Py.substring_of n s = true → Py.substring_of n (t +:+ s) = true.
Proof. intros H. induction t as [|a t IH]; [done|]. by apply substring_of_cons. Qed.

Lemma substring_of_app_r n s t :
  Py.substring_of n s = true → Py.substring_of n (s +:+ t) = true.
Proof.
  induction s as [|a s IH]; simpl.
  - rewrite orb_false_r. destruct n; [|done]. intros _. by destruct t.
  - intros [H|H]%orb_true_iff.
    + apply orb_true_iff. left. by apply (startswith_app_r n (String a s) t).
    + apply orb_true_iff. right. by apply IH.
Qed.

Lemma substring_of_extend n s s' :
  Py.substring_of n s = true → Py.startswith s s' = true → Py.substring_of n s' = true.
Proof.
  revert s'. induction s as [|a s IH]; intros s'; simpl.
  - rewrite orb_false_r. destruct n; [|done]. intros _ _. by destruct s'.
  - destruct s' as [|b s']; [done|]. case_decide as Hab; [subst b|done].
    intros [H|H]%orb_true_iff Hs.
    + apply orb_true_iff. left.
      apply (startswith_trans n (String a s)); [done|]. simpl. by rewrite decide_True.
    + simpl. apply orb_true_iff. right. by apply IH.
Qed.

Lemma or_empty_Some s : Py.or_empty (Some s) = s.
Proof. by destruct s. Qed.

(** ** The tags and notes of a merge *)

Lemma merge_tags_elem d p x :
  x ∈ Contact.tags (merge_tags d p) ↔ x ∈ Contact.tags p ∨ x ∈ Contact.tags d.
Proof.
  unfold merge_tags. destruct (Contact.tags d) as [|t ts] eqn:E.
  - split; [by left|]. intros [?|?%elem_of_nil]; done.
  - cbn [Contact.tags Contact.set_tags].
    rewrite elem_of_elements, elem_of_union, !elem_of_list_to_set. done.
Qed.

Lemma merge_tags_notes d p : Contact.notes (merge_tags d p) = Contact.notes p.
Proof. unfold merge_tags. by destruct (Contact.tags d). Qed.

Lemma merge_notes_tags d p : Contact.tags (merge_notes d p) = Contact.tags p.
Proof. unfold merge_notes. by repeat case_match. Qed.

Lemma merge_notes_contains d p :
  Py.startswith (Py.or_empty (Contact.notes p))
                (Py.or_empty (Contact.notes (merge_notes d p))) = true
  ∧ (Py.truthy (Contact.notes d) = true →
     Py.substring_of (Py.or_empty (Contact.notes d))
                     (Py.or_empty (Contact.notes (merge_notes d p))) = true).
Proof.
  unfold merge_notes.
  destruct (Py.truthy (Contact.notes d)) eqn:Hd; cbn [andb];
    [|by rewrite startswith_refl].
  destruct (Py.substring_of _ _) eqn:Hsub; cbn [negb];
    [by rewrite startswith_refl|].
  destruct (Py.truthy (Contact.notes p)) eqn:Hp;
    cbn [Contact.notes Contact.set_notes].
  - rewrite or_empty_Some. split; [apply startswith_app|]. intros _.
    do 7 apply substring_of_app_l. apply substring_of_refl.
  - split; [|intros _; apply substring_of_refl].
    destruct (Contact.notes p) as [[|a s]|]; simpl in *; done.
Qed.

(** The part of a contact that a merge leaves to the primary as it is. *)
Lemma merge_step_identity d p :
  let p' := merge_notes d (merge_tags d p) in
  Contact.organizer p' = Contact.organizer p
  ∧ Contact.email p' = Contact.email p
  ∧ Contact.first_name p' = Contact.first_name p
  ∧ Contact.last_name p' = Contact.last_name p
  ∧ Contact.phone p' = Contact.phone p
  ∧ Contact.company p' = Contact.company p
  ∧ Contact.job_title p' = Contact.job_title p.
Proof.
  unfold merge_notes, merge_tags. simpl.
  by repeat case_match.
Qed.

Lemma merge_duplicates_fields pk dups : ∀ m w w' m',
  merge_duplicates pk dups m w = (w', inr m') →
  (∀ x, x ∈ Contact.tags (primary_contact m')
        ↔ x ∈ Contact.tags (primary_contact m)
          ∨ ∃ d, d ∈ dups.*2 ∧ x ∈ Contact.tags d)
  ∧ Py.startswith (Py.or_empty (Contact.notes (primary_contact m)))
                  (Py.or_empty (Contact.notes (primary_contact m'))) = true
  ∧ (∀ d, d ∈ dups.*2 → Py.truthy (Contact.notes d) = true →
          Py.substring_of (Py.or_empty (Contact.notes d))
                          (Py.or_empty (Contact.notes (primary_contact m'))) = true)
  ∧ (Contact.organizer (primary_contact m') = Contact.organizer (primary_contact m)
     ∧ Contact.email (primary_contact m') = Contact.email (primary_contact m)
     ∧ Contact.first_name (primary_contact m') = Contact.first_name (primary_contact m)
     ∧ Contact.last_name (primary_contact m') = Contact.last_name (primary_contact m)
     ∧ Contact.phone (primary_contact m') = Contact.phone (primary_contact m)
     ∧ Contact.company (primary_contact m') = Contact.company (primary_contact m)
     ∧ Contact.job_title (primary_contact m') = Contact.job_title (primary_contact m)).
Proof.
  induction dups as [|[k d] dups IH]; intros m w w' m'; simpl.
  - intros [= <- <-]. split_and!; try done.
    + intros x. split; [by left|]. by intros [?|(? & ?%elem_of_nil & ?)].
    + apply startswith_refl.
    + by intros ? ?%elem_of_nil.
  - unfold bind at 1. unfold merge_duplicate, bind at 1.
    destruct (interaction_update_contact k pk w) as [w1 [e|[]]]; [done|].
    unfold ret at 1. intros Hrun. apply IH in Hrun as (Htags & Hpre & Hsub & Hid).
    simpl in *.
    destruct (merge_notes_contains d (merge_tags d (primary_contact m))) as [Hstep Hnew].
    rewrite merge_tags_notes in Hstep.
    destruct (merge_step_identity d (primary_contact m)) as (? & ? & ? & ? & ? & ? & ?).
    destruct Hid as (? & ? & ? & ? & ? & ? & ?).
    split_and!; try congruence.
    + intros x. rewrite Htags, merge_notes_tags, merge_tags_elem. split.
      * intros [[?|?]|(d' & ? & ?)]; [by left|right; exists d|right; exists d'];
          (split; [|done]); [apply list_elem_of_here|by apply list_elem_of_further].
      * intros [?|(d' & [->|?]%elem_of_cons & ?)]; eauto.
    + by eapply startswith_trans.
    + intros d' [->|Hin]%elem_of_cons Hd'; [|by apply Hsub].
      eapply substring_of_extend; [by apply Hnew|done].
Qed.

Lemma merged_primary_profile m : same_profile (primary_contact m) (merged_primary m).
Proof.
  unfold merged_primary, same_profile.
  by destruct (latest_booking_date m).
Qed.

(** With the storage up and the primary there, a merge runs to its end. *)
Lemma merge_contact_data_up pk (ids : list Z) primary w :
  outage w = None →
  contacts (db w) !! pk = Some primary →
  ∃ w1 m result,
    merge_duplicates pk (contacts_in ids (db w))
      (mkMerge primary 0 (Contact.last_booking_date primary)) w = (w1, inr m)
    ∧ db w1 = with_interactions (map (repoint_all (contacts_in ids (db w)).*1 pk)) (db w)
    ∧ merge_contact_data pk ids w
      = (mkWorld (with_contacts (filter (λ x, x.1 ∉ ids))
                    (with_contacts (insert pk (merged_primary m)) (db w1)))
                 None, result)
    ∧ result !! "status" = Some (VStr "success").
Proof.
  intros Hw Hp.
  destruct (merge_duplicates_up pk (contacts_in ids (db w))
              (mkMerge primary 0 (Contact.last_booking_date primary)) w Hw)
    as (w1 & m & Hrun & Hout & Hdb & _).
  exists w1, m. eexists. split; [done|]. split; [done|].
  unfold merge_contact_data, try_task, merge_body.
  unfold bind at 1. unfold contact_get. rewrite query_up by done. rewrite Hp.
  unfold bind at 1. unfold contact_filter_id_in. rewrite query_up by done.
  unfold merge_into. unfold bind at 1. rewrite Hrun.
  unfold bind at 1. unfold contact_save. rewrite execute_up by done.
  unfold bind at 1. unfold contact_delete_id_in. rewrite execute_up by done.
  unfold ret. split; [reflexivity|done].
Qed.

Lemma contacts_in_values (ids : list Z) d c :
  c ∈ (contacts_in ids d).*2 ↔ ∃ k, k ∈ ids ∧ contacts d !! k = Some c.
Proof.
  rewrite list_elem_of_fmap. split.
  - intros ([k c'] & -> & [Hk Hc]%contacts_in_lookup). eauto.
  - intros (k & Hk & Hc). exists (k, c). split; [done|]. by apply contacts_in_lookup.
Qed.

(** X9. With the storage up, a merge into a primary that is not among the
    duplicate ids leaves it with, as tags, those it had and those of the
    duplicates that resolved, and no other; its owner, email, names,
    phone, company and job title are as they were. *)
Theorem merge_unions_tags pk (ids : list Z) primary w :
  outage w = None →
  contacts (db w) !! pk = Some primary →
  pk ∉ ids →
  ∃ saved,
    contacts (db (merge_contact_data pk ids w).1) !! pk = Some saved
    ∧ (∀ tag, tag ∈ Contact.tags saved
              ↔ tag ∈ Contact.tags primary
                ∨ ∃ k d, k ∈ ids ∧ contacts (db w) !! k = Some d
                         ∧ tag ∈ Contact.tags d)
    ∧ Contact.organizer saved = Contact.organizer primary
    ∧ Contact.email saved = Contact.email primary
    ∧ Contact.first_name saved = Contact.first_name primary
    ∧ Contact.last_name saved = Contact.last_name primary
    ∧ Contact.phone saved = Contact.phone primary
    ∧ Contact.company saved = Contact.company primary
    ∧ Contact.job_title saved = Contact.job_title primary.
Proof.
  intros Hw Hp Hpk.
  destruct (merge_contact_data_up pk ids primary w Hw Hp)
    as (w1 & m & result & Hrun & _ & -> & _).
  apply merge_duplicates_fields in Hrun as (Htags & _ & _ & Hid).
  destruct (merged_primary_profile m) as (? & ? & ? & ? & ? & ? & ? & ? & Et).
  destruct Hid as (? & ? & ? & ? & ? & ? & ?).
  exists (merged_primary m). simpl in *. split_and!; try congruence.
  - apply map_lookup_filter_Some. split; [apply lookup_insert_eq|done].
  - intros tag. rewrite Et, Htags. split.
    + intros [?|(d & (k & ? & ?)%contacts_in_values & ?)]; [by left|right; eauto].
    + intros [?|(k & d & ? & ? & ?)]; [by left|right].
      exists d. split; [|done]. apply contacts_in_values. eauto.
Qed.

(** X10. With the storage up, a merge into a primary that is not among
    the duplicate ids leaves it with notes that begin with the notes it
    had and contain the notes of every duplicate that resolved and had
    any. *)
Theorem merge_keeps_all_notes pk (ids : list Z) primary w :
  outage w = None →
  contacts (db w) !! pk = Some primary →
  pk ∉ ids →
  ∃ saved,
    contacts (db (merge_contact_data pk ids w).1) !! pk = Some saved
    ∧ Py.startswith (Py.or_empty (Contact.notes primary))
                    (Py.or_empty (Contact.notes saved)) = true
    ∧ ∀ k d, k ∈ ids → contacts (db w) !! k = Some d →
             Py.truthy (Contact.notes d) = true →
             Py.substring_of (Py.or_empty (Contact.notes d))
                             (Py.or_empty (Contact.notes saved)) = true.
Proof.
  intros Hw Hp Hpk.
  destruct (merge_contact_data_up pk ids primary w Hw Hp)
    as (w1 & m & result & Hrun & _ & -> & _).
  apply merge_duplicates_fields in Hrun as (_ & Hpre & Hsub & _).
  destruct (merged_primary_profile m) as (_ & _ & _ & _ & _ & _ & _ & En & _).
  exists (merged_primary m). simpl in *. rewrite En. split_and!; try done.
  - apply map_lookup_filter_Some. split; [apply lookup_insert_eq|done].
  - intros k d Hk Hd. apply Hsub. apply contacts_in_values. eauto.
Qed.

(** X11. With the storage up, a merge whose duplicate ids name the primary
    itself returns success and leaves no contact under the key of the
    primary: the primary is saved and then deleted with the duplicates. *)
Theorem merge_into_itself_deletes_primary pk (ids : list Z) primary w :
  outage w = None →
  contacts (db w) !! pk = Some primary →
  pk ∈ ids →
  (merge_contact_data pk ids w).2 !! "status" = Some (VStr "success")
  ∧ contacts (db (merge_contact_data pk ids w).1) !! pk = None.
Proof.
  intros Hw Hp Hpk.
  destruct (merge_contact_data_up pk ids primary w Hw Hp)
    as (w1 & m & result & _ & _ & -> & Hst).
  split; [done|]. simpl.
  apply map_lookup_filter_None. right. intros c _. simpl. tauto.
Qed.

Lemma merge_unresolved pk (ids : list Z) primary w :
  outage w = None →
  contacts (db w) !! pk = Some primary →
  (∀ id, id ∈ ids → contacts (db w) !! id = None) →
  merge_contact_data pk ids w
  = (w, {[ "status" := VStr "success";
           "message" := VStr ("Merged " +:+ pretty (len ids)
                              +:+ " contacts into " +:+ Contact.email primary);
           "merged_count" := VInt (len ids) ]}).
Proof.
  intros Hw Hp Hids.
  assert (Hsave : with_contacts (insert pk primary) (db w) = db w)
    by (apply with_contacts_same; by apply insert_id).
  assert (Hdel : with_contacts (filter (λ x, x.1 ∉ ids)) (db w) = db w)
    by (apply with_contacts_same; by apply delete_unresolved).
  unfold merge_contact_data, try_task, merge_body, merge_into.
  destruct w as [d o]; simpl in *; subst o.
  run_storage; rewrite Hp; simpl; rewrite contacts_in_unresolved by done; simpl.
  rewrite merged_primary_id; simpl. by rewrite Hsave, Hdel.
Qed.

(** X12. With the storage up, merging the same duplicates into the same
    primary a second time changes nothing: the duplicates are gone, so the
    second merge finds none and returns success. *)
Theorem merge_again_changes_nothing pk (ids : list Z) primary w :
  outage w = None →
  contacts (db w) !! pk = Some primary →
  pk ∉ ids →
  db (merge_contact_data pk ids (merge_contact_data pk ids w).1).1
  = db (merge_contact_data pk ids w).1
  ∧ (merge_contact_data pk ids (merge_contact_data pk ids w).1).2 !! "status"
    = Some (VStr "success").
Proof.
  intros Hw Hp Hpk.
  destruct (merge_contact_data_up pk ids primary w Hw Hp)
    as (w1 & m & result & _ & _ & -> & _).
  cbn [fst].
  set (w' := mkWorld _ None).
  rewrite (merge_unresolved pk ids (merged_primary m) w'); [done|done| |].
  - simpl. apply map_lookup_filter_Some. split; [apply lookup_insert_eq|done].
  - intros id Hid. simpl. apply map_lookup_filter_None. right. intros c _. simpl. tauto.
Qed.

(** ** The statistics of one contact *)

Lemma latest_by_start_spec (l : list (Z * Booking.t)) :
  match latest_by_start l with
  | Some b => b ∈ l.*2 ∧ ∀ x, x ∈ l → (Booking.start_time x.2 ≤ Booking.start_time b)%Z
  | None => l = []
  end.
Proof.
  induction l as [|x l IH]; simpl; [done|].
  destruct (latest_by_start l) as [b|].
  - destruct IH as [Hb Hmax].
    destruct (Z.ltb_spec (Booking.start_time b) (Booking.start_time x.2)).
    + split; [apply list_elem_of_here|].
      intros y [->|Hy]%elem_of_cons; [lia|]. specialize (Hmax y Hy). lia.
    + split; [by apply list_elem_of_further|].
      intros y [->|Hy]%elem_of_cons; [lia|]. by apply Hmax.
  - subst l. split; [apply list_elem_of_here|].
    intros y [->|Hy%elem_of_nil]%elem_of_cons; [lia|done].
Qed.

Lemma confirmed_bookings_lookup organizer email d k b :
  (k, b) ∈ confirmed_bookings organizer email d
  ↔ bookings d !! k = Some b
    ∧ Booking.organizer b = organizer
    ∧ Booking.invitee_email b = email
    ∧ Booking.status b = "confirmed".
Proof.
  unfold confirmed_bookings. rewrite list_elem_of_filter, elem_of_map_to_list. simpl. tauto.
Qed.

(** With the storage up and the contact there, the update writes the
    count and the latest start of the confirmed bookings. *)
Lemma update_stats_up contact_id contact w :
  outage w = None →
  contacts (db w) !! contact_id = Some contact →
  update_single_contact_booking_stats contact_id w
  = (mkWorld
       (with_contacts
          (insert contact_id
             (Contact.set_last_booking_date
                (Booking.start_time <$>
                   latest_by_start (confirmed_bookings (Contact.organizer contact)
                                      (Contact.email contact) (db w)))
                (Contact.set_total_bookings
                   (len (confirmed_bookings (Contact.organizer contact)
                           (Contact.email contact) (db w)))
                   contact)))
          (db w)) None,
     {[ "status" := VStr "success";
        "message" := VStr ("Updated booking stats for " +:+ Contact.email contact);
        "total_bookings" :=
          VInt (len (confirmed_bookings (Contact.organizer contact)
                       (Contact.email contact) (db w))) ]}).
Proof.
  intros Hw Hc. unfold update_single_contact_booking_stats, try_task, update_stats_body.
  unfold bind at 1. unfold contact_get. rewrite query_up by done. rewrite Hc.
  unfold bind at 1. unfold booking_count. rewrite query_up by done.
  unfold bind at 1. unfold booking_latest. rewrite query_up by done.
  unfold bind at 1. unfold contact_save. rewrite execute_up by done.
  done.
Qed.

(** X13. With the storage up, the update of the statistics of a contact
    that is there returns success and leaves it with, as total_bookings,
    the number of confirmed bookings of its organizer for its email, and
    as last_booking_date the start of one of them that none of them
    exceeds, or no date when there is none; the rest of the contact and
    every other contact stay as they were. *)
Theorem update_stats_counts_confirmed_bookings contact_id contact w :
  outage w = None →
  contacts (db w) !! contact_id = Some contact →
  let confirmed :=
    confirmed_bookings (Contact.organizer contact) (Contact.email contact) (db w) in
  (update_single_contact_booking_stats contact_id w).2 !! "status" = Some (VStr "success")
  ∧ (update_single_contact_booking_stats contact_id w).2 !! "total_bookings"
    = Some (VInt (len confirmed))
  ∧ (∃ saved,
       contacts (db (update_single_contact_booking_stats contact_id w).1) !! contact_id
       = Some saved
       ∧ same_profile contact saved
       ∧ Contact.total_bookings saved = len confirmed
       ∧ (Contact.last_booking_date saved = None ↔ confirmed = [])
       ∧ (∀ t, Contact.last_booking_date saved = Some t →
               (∃ b, b ∈ confirmed.*2 ∧ Booking.start_time b = t)
               ∧ ∀ x, x ∈ confirmed → (Booking.start_time x.2 ≤ t)%Z))
  ∧ (∀ k, k ≠ contact_id →
          contacts (db (update_single_contact_booking_stats contact_id w).1) !! k
          = contacts (db w) !! k).
Proof.
  intros Hw Hc confirmed. rewrite (update_stats_up contact_id contact w Hw Hc).
  fold confirmed. cbn [fst snd db contacts with_contacts].
  split; [done|]. split; [done|]. split.
  - eexists. split; [apply lookup_insert_eq|].
    pose proof (latest_by_start_spec confirmed) as Hlatest.
    split; [done|]. split; [done|]. cbn [Contact.last_booking_date Contact.set_last_booking_date].
    destruct (latest_by_start confirmed) as [b|]; simpl.
    + destruct Hlatest as [Hb Hmax]. split.
      * split; [done|]. intros E. rewrite E in Hb. by apply elem_of_nil in Hb.
      * intros t [= <-]. eauto.
    + done.
  - intros k Hk. by rewrite lookup_insert_ne.
Qed.

Lemma confirmed_bookings_contacts organizer email f d :
  confirmed_bookings organizer email (with_contacts f d)
  = confirmed_bookings organizer email d.
Proof. done. Qed.

(** X14. With the storage up, updating the statistics of a contact twice
    in a row leaves the tables as the first update left them, and returns
    the same result. *)
Theorem update_stats_twice contact_id w :
  outage w = None →
  db (update_single_contact_booking_stats contact_id
        (update_single_contact_booking_stats contact_id w).1).1
  = db (update_single_contact_booking_stats contact_id w).1
  ∧ (update_single_contact_booking_stats contact_id
       (update_single_contact_booking_stats contact_id w).1).2
    = (update_single_contact_booking_stats contact_id w).2.
Proof.
  intros Hw. destruct (contacts (db w) !! contact_id) as [contact|] eqn:Hc.
  - rewrite (update_stats_up contact_id contact w Hw Hc). cbn [fst snd].
    erewrite update_stats_up; [|done|apply lookup_insert_eq].
    cbn [fst snd db with_contacts contacts users interactions bookings].
    rewrite !confirmed_bookings_contacts.
    split; [|done]. unfold with_contacts. cbn. f_equal.
    rewrite insert_insert_eq. done.
  - assert (update_single_contact_booking_stats contact_id w
            = (w, error_result ("Contact " +:+ pretty contact_id +:+ " not found"))) as Hrun.
    { unfold update_single_contact_booking_stats, try_task, update_stats_body.
      unfold bind at 1. unfold contact_get. rewrite query_up by done. by rewrite Hc. }
    rewrite Hrun. cbn [fst snd]. by rewrite Hrun.
Qed.

(** X15. The update of the statistics of a contact that does not exist
    changes no table and returns status error, with the message that the
    contact is not found when the storage is up. *)
Theorem update_stats_of_unknown_contact contact_id w :
  contacts (db w) !! contact_id = None →
  db (update_single_contact_booking_stats contact_id w).1 = db w
  ∧ (update_single_contact_booking_stats contact_id w).2 !! "status" = Some (VStr "error")
  ∧ (outage w = None →
     (update_single_contact_booking_stats contact_id w).2
     = error_result ("Contact " +:+ pretty contact_id +:+ " not found")).
Proof.
  intros Hc. unfold update_single_contact_booking_stats, try_task, update_stats_body.
  destruct w as [d [[|n]|]]; simpl in *; run_storage; rewrite ?Hc; simpl; by split_and!.
Qed.

(** ** The sweep of the statistics of all contacts *)

Lemma stats_changed_differs c total latest :
  stats_changed c total latest = true →
  Contact.set_last_booking_date (Booking.start_time <$> latest)
    (Contact.set_total_bookings total c) ≠ c.
Proof.
  unfold stats_changed. intros [Ht|Hl]%orb_true_iff E.
  - apply negb_true_iff, bool_decide_eq_false in Ht. apply Ht.
    by rewrite <- E at 1.
  - destruct latest as [b|]; [|done].
    apply negb_true_iff, bool_decide_eq_false in Hl. apply Hl.
    by rewrite <- E at 1.
Qed.

Lemma swept_changed d c :
  swept d c ≠ c
  ↔ stats_changed c
      (len (confirmed_bookings (Contact.organizer c) (Contact.email c) d))
      (latest_by_start (confirmed_bookings (Contact.organizer c) (Contact.email c) d))
    = true.
Proof.
  unfold swept. destruct (stats_changed _ _ _) eqn:E.
  - split; [done|]. intros _. by apply stats_changed_differs.
  - split; [done|]. done.
Qed.

Lemma swept_profile d c : same_profile c (swept d c).
Proof. unfold swept, same_profile. by destruct (stats_changed _ _ _). Qed.

Lemma swept_idemp d c : swept d (swept d c) = swept d c.
Proof.
  destruct (swept_profile d c) as (Ho & _ & _ & He & _).
  unfold swept at 1. rewrite Ho, He.
  set (confirmed := confirmed_bookings (Contact.organizer c) (Contact.email c) d).
  assert (stats_changed (swept d c) (len confirmed) (latest_by_start confirmed) = false)
    as ->; [|done].
  unfold swept. fold confirmed.
  destruct (stats_changed c _ _) eqn:E; [|done].
  unfold stats_changed. simpl. rewrite bool_decide_eq_true_2 by done. simpl.
  destruct (latest_by_start confirmed); simpl; [|done].
  by rewrite bool_decide_eq_true_2.
Qed.

Lemma swept_contacts f d c : swept (with_contacts f d) c = swept d c.
Proof. done. Qed.

(** One contact of the sweep, with the storage up. *)
Lemma update_stats_of_up k c n w :
  outage w = None →
  contacts (db w) !! k = Some c →
  update_stats_of (k, c) n w
  = (mkWorld (with_contacts (insert k (swept (db w) c)) (db w)) None,
     inr (if decide (swept (db w) c ≠ c) then n + 1 else n)%Z).
Proof.
  intros Hw Hc. unfold update_stats_of.
  unfold bind at 1. unfold booking_count. rewrite query_up by done.
  unfold bind at 1. unfold booking_latest. rewrite query_up by done.
  pose proof (swept_changed (db w) c) as Hch. unfold swept in *.
  destruct (stats_changed _ _ _) eqn:E.
  - unfold bind at 1. unfold contact_save. rewrite execute_up by done.
    rewrite decide_True by by apply Hch. done.
  - rewrite decide_False by (intros ?%Hch; done).
    destruct w as [d o]. simpl in *. subst o. unfold ret.
    by rewrite with_contacts_same by by apply insert_id.
Qed.

Lemma update_stats_loop_up l : ∀ n w,
  outage w = None →
  NoDup l.*1 →
  (∀ x, x ∈ l → contacts (db w) !! x.1 = Some x.2) →
  ∃ w',
    update_stats_loop l n w
    = (w', inr (n + len (filter (λ x, swept (db w) x.2 ≠ x.2) l))%Z)
    ∧ outage w' = None
    ∧ other_tables_same (db w) (db w')
    ∧ ∀ k, contacts (db w') !! k
           = if decide (k ∈ l.*1) then swept (db w) <$> contacts (db w) !! k
             else contacts (db w) !! k.
Proof.
  induction l as [|[k c] l IH]; intros n w Hw Hnd Hl.
  - exists w. simpl. unfold ret, len. simpl. split_and!; try done.
    all: try (intros k; by rewrite decide_False by apply not_elem_of_nil).
    all: do 2 f_equal; lia.
  - cbn [update_stats_loop]. unfold bind at 1.
    assert (Hk : contacts (db w) !! k = Some c) by apply (Hl (k, c)), list_elem_of_here.
    rewrite (update_stats_of_up k c n w Hw Hk).
    set (w1 := mkWorld _ None).
    rewrite fmap_cons in Hnd |- *. cbn [fst] in Hnd |- *.
    apply NoDup_cons in Hnd as [Hkl Hnd].
    destruct (IH (if decide (swept (db w) c ≠ c) then n + 1 else n)%Z w1 eq_refl Hnd)
      as (w' & Hrun & Hout & (Hu & Hi & Hb) & Hlook).
    { intros x Hx. simpl. rewrite lookup_insert_ne; [by apply Hl, list_elem_of_further|].
      intros ->. apply Hkl. by apply (list_elem_of_fmap_2 fst l x). }
    change (swept (db w1)) with (swept (db w)) in Hrun, Hlook.
    exists w'. split_and!; try done.
    + rewrite Hrun. do 2 f_equal. rewrite filter_cons. cbn [snd].
      unfold len. destruct (decide (swept (db w) c ≠ c)); simpl; lia.
    + intros k'. rewrite Hlook. simpl.
      destruct (decide (k' = k)) as [->|Hne].
      * rewrite decide_False by done. rewrite decide_True by apply list_elem_of_here.
        by rewrite lookup_insert_eq, Hk.
      * rewrite lookup_insert_ne by done.
        destruct (decide (k' ∈ l.*1)) as [Hin|Hnin].
        -- by rewrite decide_True by by apply list_elem_of_further.
        -- rewrite decide_False; [done|]. by intros [?|?]%elem_of_cons.
Qed.

(** With the storage up, the sweep runs to its end and makes of every
    contact what the loop makes of it. *)
Lemma update_contact_booking_stats_up w :
  outage w = None →
  ∃ w',
    update_contact_booking_stats w
    = (w', inr ({[ "status" := VStr "success";
                   "message" := VStr ("Updated booking stats for "
                                      +:+ pretty (len (filter (λ x, swept (db w) x.2 ≠ x.2)
                                                         (map_to_list (contacts (db w)))))
                                      +:+ " contacts");
                   "updated_count" :=
                     VInt (len (filter (λ x, swept (db w) x.2 ≠ x.2)
                                  (map_to_list (contacts (db w))))) ]}))
    ∧ outage w' = None
    ∧ other_tables_same (db w) (db w')
    ∧ contacts (db w') = swept (db w) <$> contacts (db w).
Proof.
  intros Hw. unfold update_contact_booking_stats.
  unfold bind at 1. unfold contact_all. rewrite query_up by done.
  destruct (update_stats_loop_up (map_to_list (contacts (db w))) 0 w Hw)
    as (w' & Hrun & Hout & Hother & Hlook).
  { apply NoDup_fst_map_to_list. }
  { intros [k c] Hx. by apply elem_of_map_to_list. }
  exists w'. unfold bind at 1. rewrite Hrun. unfold ret.
  rewrite Z.add_0_l. split_and!; try done.
  apply map_eq. intros k. rewrite Hlook, lookup_fmap.
  destruct (decide (k ∈ (map_to_list (contacts (db w))).*1)) as [Hin|Hnin]; [done|].
  destruct (contacts (db w) !! k) as [c|] eqn:Hc; [|done].
  exfalso. apply Hnin. apply list_elem_of_fmap. exists (k, c).
  split; [done|]. by apply elem_of_map_to_list.
Qed.

Lemma swept_stats d c :
  let confirmed := confirmed_bookings (Contact.organizer c) (Contact.email c) d in
  Contact.total_bookings (swept d c) = len confirmed
  ∧ (confirmed ≠ [] →
     ∃ b, b ∈ confirmed.*2
          ∧ Contact.last_booking_date (swept d c) = Some (Booking.start_time b)
          ∧ ∀ x, x ∈ confirmed → (Booking.start_time x.2 ≤ Booking.start_time b)%Z)
  ∧ (confirmed = [] → Contact.total_bookings c = 0%Z → swept d c = c)
  ∧ (confirmed = [] → Contact.total_bookings c ≠ 0%Z →
     Contact.last_booking_date (swept d c) = None).
Proof.
  intros confirmed. unfold swept. fold confirmed.
  pose proof (latest_by_start_spec confirmed) as Hlatest.
  destruct (stats_changed c (len confirmed) (latest_by_start confirmed)) eqn:E.
  - cbn [Contact.total_bookings Contact.last_booking_date Contact.set_last_booking_date
         Contact.set_total_bookings].
    split; [done|]. destruct (latest_by_start confirmed) as [b|].
    + destruct Hlatest as [Hb Hmax]. split_and!.
      * intros _. exists b. by split_and!.
      * intros E'. rewrite E' in Hb. by apply elem_of_nil in Hb.
      * intros E'. rewrite E' in Hb. by apply elem_of_nil in Hb.
    + split_and!; [done| |done]. intros _ Hz.
      unfold stats_changed in E. rewrite Hlatest, Hz in E. done.
  - unfold stats_changed in E. apply orb_false_iff in E as [Ht Hl].
    apply negb_false_iff, bool_decide_eq_true in Ht.
    split; [done|]. destruct (latest_by_start confirmed) as [b|].
    + destruct Hlatest as [Hb Hmax].
      apply negb_false_iff, bool_decide_eq_true in Hl. split_and!.
      * intros _. exists b. by split_and!.
      * done.
      * intros E'. rewrite E' in Hb. by apply elem_of_nil in Hb.
    + split_and!; [done|done|]. intros _ Hz. rewrite Ht, Hlatest in Hz. done.
Qed.

(** X16. With the storage up, the sweep returns success, adds and deletes
    no contact and touches no other table; it leaves every contact with
    its profile and, as total_bookings, the number of confirmed bookings
    of its organizer for its email.  A contact with such bookings gets as
    last_booking_date the start of one that none exceeds; a contact
    without them loses its date if its total was not zero, and is left as
    it is, date and all, if its total was zero. *)
Theorem sweep_recounts_every_contact w :
  outage w = None →
  ∃ w' result,
    update_contact_booking_stats w = (w', inr result)
    ∧ result !! "status" = Some (VStr "success")
    ∧ other_tables_same (db w) (db w')
    ∧ (∀ k, contacts (db w) !! k = None → contacts (db w') !! k = None)
    ∧ ∀ k c,
        contacts (db w) !! k = Some c →
        let confirmed :=
          confirmed_bookings (Contact.organizer c) (Contact.email c) (db w) in
        ∃ c',
          contacts (db w') !! k = Some c'
          ∧ same_profile c c'
          ∧ Contact.total_bookings c' = len confirmed
          ∧ (confirmed ≠ [] →
             ∃ b, b ∈ confirmed.*2
                  ∧ Contact.last_booking_date c' = Some (Booking.start_time b)
                  ∧ ∀ x, x ∈ confirmed →
                         (Booking.start_time x.2 ≤ Booking.start_time b)%Z)
          ∧ (confirmed = [] → Contact.total_bookings c = 0%Z → c' = c)
          ∧ (confirmed = [] → Contact.total_bookings c ≠ 0%Z →
             Contact.last_booking_date c' = None).
Proof.
  intros Hw.
  destruct (update_contact_booking_stats_up w Hw) as (w' & Hrun & _ & Hother & Hc).
  exists w'. eexists. split; [exact Hrun|]. split; [done|]. split; [done|]. split.
  - intros k Hk. by rewrite Hc, lookup_fmap, Hk.
  - intros k c Hk confirmed. exists (swept (db w) c).
    split; [by rewrite Hc, lookup_fmap, Hk|]. split; [apply swept_profile|].
    apply swept_stats.
Qed.

Lemma filter_ext_elem {A} (P Q : A → Prop) `{!∀ x, Decision (P x), !∀ x, Decision (Q x)}
    (l : list A) :
  (∀ x, x ∈ l → P x ↔ Q x) → filter P l = filter Q l.
Proof.
  induction l as [|a l IH]; intros Hpq; [done|].
  rewrite !filter_cons.
  rewrite IH by (intros x Hx; by apply Hpq, list_elem_of_further).
  apply decide_ext, Hpq, list_elem_of_here.
Qed.

Lemma filter_none {A} (P : A → Prop) `{!∀ x, Decision (P x)} (l : list A) :
  (∀ x, x ∈ l → ¬ P x) → filter P l = [].
Proof.
  induction l as [|a l IH]; intros Hp; [done|].
  rewrite filter_cons, decide_False by apply Hp, list_elem_of_here.
  apply IH. intros x Hx. by apply Hp, list_elem_of_further.
Qed.

(** X17. With the storage up, the count that the sweep returns is the
    number of contacts whose row it changed. *)
Theorem sweep_counts_changed_contacts w :
  outage w = None →
  ∃ w' result,
    update_contact_booking_stats w = (w', inr result)
    ∧ result !! "updated_count"
      = Some (VInt (len (filter (λ x, contacts (db w') !! x.1 ≠ Some x.2)
                           (map_to_list (contacts (db w)))))).
Proof.
  intros Hw.
  destruct (update_contact_booking_stats_up w Hw) as (w' & Hrun & _ & _ & Hc).
  exists w'. eexists. split; [exact Hrun|].
  rewrite (filter_ext_elem (λ x, contacts (db w') !! x.1 ≠ Some x.2)
             (λ x, swept (db w) x.2 ≠ x.2)); [done|].
  intros [k c] Hx%elem_of_map_to_list. simpl.
  rewrite Hc, lookup_fmap, Hx. simpl. split; [congruence|]. intros Hne [= E]. done.
Qed.

(** X18. With the storage up, a second sweep right after a first changes
    no table and returns a count of zero. *)
Theorem sweep_again_changes_nothing w :
  outage w = None →
  ∃ w' result w'' result',
    update_contact_booking_stats w = (w', inr result)
    ∧ update_contact_booking_stats w' = (w'', inr result')
    ∧ db w'' = db w'
    ∧ result' !! "updated_count" = Some (VInt 0).
Proof.
  intros Hw.
  destruct (update_contact_booking_stats_up w Hw)
    as (w' & Hrun & Hw' & (Hu & Hi & Hb) & Hc).
  destruct (update_contact_booking_stats_up w' Hw')
    as (w'' & Hrun' & _ & (Hu' & Hi' & Hb') & Hc').
  assert (Hswept : swept (db w') = swept (db w)).
  { unfold swept, confirmed_bookings. by rewrite Hb. }
  exists w'. eexists. exists w''. eexists.
  split; [exact Hrun|]. split; [exact Hrun'|]. split.
  - assert (contacts (db w'') = contacts (db w')) as Hsame.
    { rewrite Hc', Hc, Hswept. apply map_eq. intros k. rewrite !lookup_fmap.
      destruct (contacts (db w) !! k); simpl; [|done]. by rewrite swept_idemp. }
    destruct (db w'), (db w''). simpl in *. congruence.
  - assert (filter (λ x, swept (db w') x.2 ≠ x.2) (map_to_list (contacts (db w'))) = [])
      as ->; [|done].
    apply filter_none. intros [k c] Hx%elem_of_map_to_list. simpl.
    rewrite Hc, lookup_fmap in Hx. rewrite Hswept.
    destruct (contacts (db w) !! k) as [c0|]; simpl in Hx; [|done].
    injection Hx as <-. intros Hne. apply Hne, swept_idemp.
Qed.

(** X27. With the storage up, the sweep leaves a contact as the update of
    that one contact would, unless the contact has no confirmed booking, a
    total of zero and a date: that date the sweep keeps and the single
    update clears. *)
Theorem sweep_agrees_with_single_update k c w :
  outage w = None →
  contacts (db w) !! k = Some c →
  confirmed_bookings (Contact.organizer c) (Contact.email c) (db w) ≠ []
  ∨ Contact.total_bookings c ≠ 0%Z
  ∨ Contact.last_booking_date c = None →
  contacts (db (update_contact_booking_stats w).1) !! k
  = contacts (db (update_single_contact_booking_stats k w).1) !! k.
Proof.
  intros Hw Hk Hcase.
  destruct (update_contact_booking_stats_up w Hw) as (w' & -> & _ & _ & Hc).
  rewrite (update_stats_up k c w Hw Hk).
  cbn [fst db contacts with_contacts]. rewrite Hc, lookup_fmap, Hk, lookup_insert_eq.
  simpl. f_equal. unfold swept.
  set (confirmed := confirmed_bookings (Contact.organizer c) (Contact.email c) (db w)) in *.
  pose proof (latest_by_start_spec confirmed) as Hlatest.
  destruct (stats_changed c (len confirmed) (latest_by_start confirmed)) eqn:E; [done|].
  unfold stats_changed in E. apply orb_false_iff in E as [Ht Hl].
  apply negb_false_iff, bool_decide_eq_true in Ht.
  destruct c as [? ? ? ? ? ? ? ? ? total last]. simpl in *. subst total.
  unfold Contact.set_last_booking_date, Contact.set_total_bookings. simpl. f_equal.
  destruct (latest_by_start confirmed) as [b|]; simpl.
  - by apply negb_false_iff, bool_decide_eq_true in Hl.
  - rewrite Hlatest in Hcase. destruct Hcase as [?|[?|?]]; done.
Qed.

(** ** The contact of a booking *)

Lemma split1_spec c s :
  if Py.contains c s
  then ∃ a b, Py.split1 c s = [a; b] ∧ s = a +:+ String c b ∧ Py.contains c a = false
  else Py.split1 c s = [s].
Proof.
  induction s as [|x s IH]; simpl; [done|].
  case_decide as Hx.
  - subst x. by exists "", s.
  - destruct (Py.contains c s).
    + destruct IH as (a & b & -> & -> & Ha). exists (String x a), b.
      split_and!; try done. simpl. by rewrite decide_False.
    + by rewrite IH.
Qed.

(** X19. The name of an invitee is cut at the first space of the trimmed
    name: the first name has no space, and the trimmed name is the first
    name alone when it has no space, and otherwise the first name, a space
    and the last name.  An empty name gives two empty names. *)
Theorem parse_name_cuts_at_first_space invitee_name :
  let '(first_name, last_name) := parse_name invitee_name in
  Py.contains " " first_name = false
  ∧ (invitee_name = "" → first_name = "" ∧ last_name = "")
  ∧ (invitee_name ≠ "" →
     if Py.contains " " (Py.strip invitee_name)
     then Py.strip invitee_name = first_name +:+ " " +:+ last_name
     else first_name = Py.strip invitee_name ∧ last_name = "").
Proof.
  unfold parse_name. destruct invitee_name as [|x s]; [done|].
  cbn [Py.nonempty]. set (name := String x s).
  pose proof (split1_spec " " (Py.strip name)) as Hsplit.
  destruct (Py.contains " " (Py.strip name)) eqn:Hc.
  - destruct Hsplit as (a & b & -> & Hname & Ha). split_and!; try done.
  - rewrite Hsplit. split_and!; try done.
Qed.

(** With the storage up and the booking there, the upsert of a contact
    that exists once writes its statistics and an interaction. *)
Lemma upsert_existing_up booking_id booking k contact w :
  outage w = None →
  bookings (db w) !! booking_id = Some booking →
  contacts_of (Booking.organizer booking) (Booking.invitee_email booking) (db w)
  = [(k, contact)] →
  create_contact_from_booking booking_id w
  = (mkWorld
       (with_interactions
          (λ l, l ++ [ContactInteraction.mk k (Booking.organizer booking)
                        "booking_created" booking_id
                        (Booking.event_type_name booking)
                        (Booking.event_type_duration booking)
                        (Booking.start_time booking)])%list
          (with_contacts
             (insert k
                (Contact.set_last_booking_date (Some (Booking.start_time booking))
                   (Contact.set_total_bookings
                      (len (confirmed_bookings (Booking.organizer booking)
                              (Booking.invitee_email booking) (db w)))
                      contact)))
             (db w)))
       None,
     {[ "status" := VStr "success";
        "message" := VStr ("Updated contact for " +:+ Booking.invitee_email booking);
        "created" := VBool false ]}).
Proof.
  destruct w as [d o]. simpl. intros -> Hb Hfound.
  unfold create_contact_from_booking, try_task, create_from_booking_body, booking_get.
  unfold bind at 1. rewrite query_up by done. cbn [db]. rewrite Hb.
  destruct (parse_name (Booking.invitee_name booking)) as [first last].
  unfold bind at 1. unfold contact_get_or_create.
  unfold bind at 1. rewrite query_up by done. cbn [db]. rewrite Hfound.
  done.
Qed.

(** With the storage up and the booking there, the upsert for an email
    that no contact of the organizer has creates the contact. *)
Lemma upsert_new_up booking_id booking w :
  outage w = None →
  bookings (db w) !! booking_id = Some booking →
  contacts_of (Booking.organizer booking) (Booking.invitee_email booking) (db w) = [] →
  create_contact_from_booking booking_id w
  = (mkWorld
       (with_interactions
          (λ l, l ++ [ContactInteraction.mk (next_pk (contacts (db w)))
                        (Booking.organizer booking)
                        "booking_created" booking_id
                        (Booking.event_type_name booking)
                        (Booking.event_type_duration booking)
                        (Booking.start_time booking)])%list
          (with_contacts
             (insert (next_pk (contacts (db w)))
                (Contact.mk (Booking.organizer booking)
                   (Some (parse_name (Booking.invitee_name booking)).1)
                   (Some (parse_name (Booking.invitee_name booking)).2)
                   (Booking.invitee_email booking)
                   (Some (Booking.invitee_phone booking))
                   (Some "") (Some "") (Some "") []
                   (len (confirmed_bookings (Booking.organizer booking)
                           (Booking.invitee_email booking) (db w)))
                   (Some (Booking.start_time booking))))
             (db w)))
       None,
     {[ "status" := VStr "success";
        "message" := VStr ("Created contact for " +:+ Booking.invitee_email booking);
        "created" := VBool true ]}).
Proof.
  destruct w as [d o]. simpl. intros -> Hb Hfound.
  unfold create_contact_from_booking, try_task, create_from_booking_body, booking_get.
  unfold bind at 1. rewrite query_up by done. cbn [db]. rewrite Hb.
  destruct (parse_name (Booking.invitee_name booking)) as [first last].
  unfold bind at 1. unfold contact_get_or_create.
  unfold bind at 1. rewrite query_up by done. cbn [db]. rewrite Hfound.
  simpl. unfold with_interactions, with_contacts. simpl.
  by rewrite insert_insert_eq.
Qed.

Lemma contacts_of_nodup organizer email d : NoDup (contacts_of organizer email d).
Proof. unfold contacts_of. apply NoDup_filter, NoDup_map_to_list. Qed.

Lemma contacts_of_unique d k c :
  unique_identity d →
  contacts d !! k = Some c →
  contacts_of (Contact.organizer c) (Contact.email c) d = [(k, c)].
Proof.
  intros Hu Hk.
  assert (∀ x, x ∈ contacts_of (Contact.organizer c) (Contact.email c) d → x = (k, c))
    as Hall.
  { intros [k' c'] (Hk' & Ho & He)%contacts_of_lookup.
    assert (k' = k) as -> by by apply (Hu k' k c' c). congruence. }
  assert ((k, c) ∈ contacts_of (Contact.organizer c) (Contact.email c) d) as Hin
    by by apply contacts_of_lookup.
  pose proof (contacts_of_nodup (Contact.organizer c) (Contact.email c) d) as Hnd.
  destruct (contacts_of (Contact.organizer c) (Contact.email c) d) as [|x [|y l]].
  - by apply elem_of_nil in Hin.
  - by rewrite (Hall x) by apply list_elem_of_here.
  - exfalso. apply NoDup_cons in Hnd as [Hx _]. apply Hx.
    rewrite (Hall x) by apply list_elem_of_here.
    rewrite (Hall y) by apply list_elem_of_further, list_elem_of_here.
    apply list_elem_of_here.
Qed.

Lemma contacts_of_none organizer email d :
  ¬ has_contact organizer email d → contacts_of organizer email d = [].
Proof.
  intros Hno. destruct (contacts_of organizer email d) as [|[k c] l] eqn:E; [done|].
  exfalso. apply Hno. exists k, c. apply contacts_of_lookup. rewrite E.
  apply list_elem_of_here.
Qed.

(** X20. With the storage up and no two contacts sharing organizer and
    email, the upsert for a booking whose organizer has a contact with
    the invitee email returns success with created false; it sets the
    total_bookings of that contact to the number of confirmed bookings of
    the organizer for the email and its last_booking_date to the start of
    the booking, and leaves its names, phone and the rest of its profile,
    and every other contact, as they were; and it appends one interaction
    of type booking_created for that contact and booking. *)
Theorem upsert_of_existing_contact booking_id booking k contact w :
  outage w = None →
  unique_identity (db w) →
  bookings (db w) !! booking_id = Some booking →
  contacts (db w) !! k = Some contact →
  Contact.organizer contact = Booking.organizer booking →
  Contact.email contact = Booking.invitee_email booking →
  (create_contact_from_booking booking_id w).2 !! "status" = Some (VStr "success")
  ∧ (create_contact_from_booking booking_id w).2 !! "created" = Some (VBool false)
  ∧ (∃ saved,
       contacts (db (create_contact_from_booking booking_id w).1) !! k = Some saved
       ∧ same_profile contact saved
       ∧ Contact.total_bookings saved
         = len (confirmed_bookings (Booking.organizer booking)
                  (Booking.invitee_email booking) (db w))
       ∧ Contact.last_booking_date saved = Some (Booking.start_time booking))
  ∧ (∀ k', k' ≠ k →
           contacts (db (create_contact_from_booking booking_id w).1) !! k'
           = contacts (db w) !! k')
  ∧ ∃ i,
      interactions (db (create_contact_from_booking booking_id w).1)
      = (interactions (db w) ++ [i])%list
      ∧ ContactInteraction.contact i = k
      ∧ ContactInteraction.booking i = booking_id
      ∧ ContactInteraction.organizer i = Booking.organizer booking
      ∧ ContactInteraction.interaction_type i = "booking_created".
Proof.
  intros Hw Hu Hb Hk Ho He.
  pose proof (contacts_of_unique (db w) k contact Hu Hk) as Hfound.
  rewrite Ho, He in Hfound.
  rewrite (upsert_existing_up booking_id booking k contact w Hw Hb Hfound).
  cbn [fst snd db contacts interactions with_contacts with_interactions].
  split; [done|]. split; [done|]. split_and!.
  - eexists. split; [apply lookup_insert_eq|]. by split_and!.
  - intros k' Hk'. by rewrite lookup_insert_ne.
  - eexists. by split_and!.
Qed.

(** X21. With the storage up, the upsert for a booking whose organizer has
    no contact with the invitee email returns success with created true
    and creates one contact, under a key that was free, with the
    organizer and the email of the booking as it is, the names cut from
    the invitee name, the phone of the booking, the count of confirmed
    bookings and the start of the booking; it leaves every other contact
    as it was and appends one interaction for the new contact. *)
Theorem upsert_of_new_contact booking_id booking w :
  outage w = None →
  bookings (db w) !! booking_id = Some booking →
  ¬ has_contact (Booking.organizer booking) (Booking.invitee_email booking) (db w) →
  (create_contact_from_booking booking_id w).2 !! "status" = Some (VStr "success")
  ∧ (create_contact_from_booking booking_id w).2 !! "created" = Some (VBool true)
  ∧ ∃ k created,
      contacts (db w) !! k = None
      ∧ contacts (db (create_contact_from_booking booking_id w).1) !! k = Some created
      ∧ Contact.organizer created = Booking.organizer booking
      ∧ Contact.email created = Booking.invitee_email booking
      ∧ Contact.first_name created = Some (parse_name (Booking.invitee_name booking)).1
      ∧ Contact.last_name created = Some (parse_name (Booking.invitee_name booking)).2
      ∧ Contact.phone created = Some (Booking.invitee_phone booking)
      ∧ Contact.total_bookings created
        = len (confirmed_bookings (Booking.organizer booking)
                 (Booking.invitee_email booking) (db w))
      ∧ Contact.last_booking_date created = Some (Booking.start_time booking)
      ∧ (∀ k', k' ≠ k →
               contacts (db (create_contact_from_booking booking_id w).1) !! k'
               = contacts (db w) !! k')
      ∧ ∃ i,
          interactions (db (create_contact_from_booking booking_id w).1)
          = (interactions (db w) ++ [i])%list
          ∧ ContactInteraction.contact i = k
          ∧ ContactInteraction.booking i = booking_id.
Proof.
  intros Hw Hb Hno%contacts_of_none.
  rewrite (upsert_new_up booking_id booking w Hw Hb Hno).
  cbn [fst snd db contacts interactions with_contacts with_interactions].
  split; [done|]. split; [done|].
  exists (next_pk (contacts (db w))). eexists.
  split; [apply next_pk_fresh|]. split; [apply lookup_insert_eq|].
  split_and!; try done.
  - intros k' Hk'. by rewrite lookup_insert_ne.
  - eexists. by split_and!.
Qed.

Lemma upsert_for_unknown_booking_db booking_id w :
  bookings (db w) !! booking_id = None →
  db (create_contact_from_booking booking_id w).1 = db w.
Proof.
  intros Hb. unfold create_contact_from_booking, try_task, create_from_booking_body,
    booking_get.
  destruct w as [d [[|n]|]]; simpl in *; run_storage; rewrite ?Hb; by simpl.
Qed.

(** X22. The upsert for a booking that does not exist changes no table and
    returns status error, with the message that the booking is not found
    when the storage is up. *)
Theorem upsert_for_unknown_booking booking_id w :
  bookings (db w) !! booking_id = None →
  db (create_contact_from_booking booking_id w).1 = db w
  ∧ (create_contact_from_booking booking_id w).2 !! "status" = Some (VStr "error")
  ∧ (outage w = None →
     (create_contact_from_booking booking_id w).2
     = error_result ("Booking " +:+ pretty booking_id +:+ " not found")).
Proof.
  intros Hb. unfold create_contact_from_booking, try_task, create_from_booking_body,
    booking_get.
  destruct w as [d [[|n]|]]; simpl in *; run_storage; rewrite ?Hb; simpl; by split_and!.
Qed.

(** X23. With the storage up, if no two contacts share organizer and email
    before the upsert of a booking, none do after it. *)
Theorem upsert_keeps_identity_unique booking_id w :
  outage w = None →
  unique_identity (db w) →
  unique_identity (db (create_contact_from_booking booking_id w).1).
Proof.
  intros Hw Hu.
  destruct (bookings (db w) !! booking_id) as [booking|] eqn:Hb.
  - destruct (contacts_of (Booking.organizer booking) (Booking.invitee_email booking) (db w))
      as [|[k c] [|y l]] eqn:Hfound.
    + rewrite (upsert_new_up booking_id booking w Hw Hb Hfound). cbn [fst db].
      intros k1 k2 c1 c2. cbn [contacts with_interactions with_contacts].
      apply (unique_identity_new (db w)
               (Contact.mk (Booking.organizer booking) _ _ (Booking.invitee_email booking)
                  _ _ _ _ _ _ _)); done.
    + rewrite (upsert_existing_up booking_id booking k c w Hw Hb Hfound). cbn [fst db].
      assert ((k, c) ∈ contacts_of (Booking.organizer booking)
                         (Booking.invitee_email booking) (db w)) as Hin
        by (rewrite Hfound; apply list_elem_of_here).
      apply contacts_of_lookup in Hin as (Hk & _ & _).
      intros k1 k2 c1 c2. cbn [contacts with_interactions with_contacts].
      by apply (unique_identity_rewrite (db w) k c).
    + assert (db (create_contact_from_booking booking_id w).1 = db w) as ->; [|done].
      unfold create_contact_from_booking. rewrite try_task_world.
      unfold create_from_booking_body, booking_get.
      unfold bind at 1. rewrite query_up by done. rewrite Hb.
      destruct (parse_name (Booking.invitee_name booking)) as [first last].
      unfold bind at 1. unfold contact_get_or_create.
      unfold bind at 1. rewrite query_up by done. by rewrite Hfound.
  - by rewrite (upsert_for_unknown_booking_db booking_id w Hb).
Qed.

(** X24. Whatever the storage does, the update of the statistics of a
    contact touches no other table, adds and deletes no contact, leaves
    every other contact as it was, and of the contact itself changes at
    most total_bookings and last_booking_date. *)
Theorem update_stats_touches_statistics_only contact_id w :
  other_tables_same (db w) (db (update_single_contact_booking_stats contact_id w).1)
  ∧ (∀ k, contacts (db w) !! k = None →
          contacts (db (update_single_contact_booking_stats contact_id w).1) !! k = None)
  ∧ ∀ k c,
      contacts (db w) !! k = Some c →
      ∃ c',
        contacts (db (update_single_contact_booking_stats contact_id w).1) !! k = Some c'
        ∧ same_profile c c'
        ∧ (k ≠ contact_id → c' = c).
Proof.
  assert (Hsame : ∀ d : DB,
    other_tables_same d d
    ∧ (∀ k, contacts d !! k = None → contacts d !! k = None)
    ∧ ∀ k c, contacts d !! k = Some c →
             ∃ c', contacts d !! k = Some c' ∧ same_profile c c' ∧ (k ≠ contact_id → c' = c)).
  { intros d. split_and!; try done. intros k c Hk. exists c. by split_and!. }
  unfold update_single_contact_booking_stats. rewrite try_task_world.
  unfold update_stats_body, contact_get, booking_count, booking_latest.
  destruct (contacts (db w) !! contact_id) as [contact|] eqn:Hc;
    destruct w as [d [[|[|[|[|n]]]]|]]; simpl in *; run_storage; rewrite ?Hc; simpl;
    try apply Hsame.
  all: split_and!; try done.
  all: try (intros k Hk; rewrite lookup_insert_ne; [done|congruence]).
  all: intros k c Hk; destruct (decide (contact_id = k)) as [<-|Hne];
    [rewrite lookup_insert_eq; eexists; split; [done|];
     assert (c = contact) as -> by congruence; by split_and!
    |rewrite lookup_insert_ne by done; exists c; by split_and!].
Qed.

(** ** Permissions *)

Section permissions.
Context {User View : Type} (has_perm : User → string → bool).

(** X25. A user may manage contacts exactly when the user may add, may
    change and may delete contacts, whatever the view. *)
Theorem manage_contacts_is_add_change_delete (u : User) (view : View) :
  Permissions.CanManageContacts User has_perm View (Permissions.mkRequest User u) view = true
  ↔ Permissions.CanAddContacts User has_perm View (Permissions.mkRequest User u) view = true
    ∧ Permissions.CanChangeContacts User has_perm View (Permissions.mkRequest User u) view = true
    ∧ Permissions.CanDeleteContacts User has_perm View (Permissions.mkRequest User u) view = true.
Proof.
  unfold Permissions.CanManageContacts, Permissions.CanAddContacts,
    Permissions.CanChangeContacts, Permissions.CanDeleteContacts. simpl.
  rewrite !andb_true_iff. tauto.
Qed.

(** X26. No permission class reads the view, and none takes a permission
    as a reason to refuse: a class that admits a user admits, on any view,
    every user who has all the permissions of the first. *)
Theorem permission_classes_monotone class (u u' : User) (view view' : View) :
  class ∈ Permissions.classes User has_perm View →
  (∀ perm, has_perm u perm = true → has_perm u' perm = true) →
  class (Permissions.mkRequest User u) view = true →
  class (Permissions.mkRequest User u') view' = true.
Proof.
  intros Hclass Hperms. unfold Permissions.classes in Hclass.
  repeat (apply elem_of_cons in Hclass as [->|Hclass]);
    [..|by apply elem_of_nil in Hclass];
    unfold Permissions.CanViewContacts, Permissions.CanAddContacts,
      Permissions.CanChangeContacts, Permissions.CanDeleteContacts,
      Permissions.CanManageContacts, Permissions.CanViewContactGroups,
      Permissions.CanManageContactGroups, Permissions.CanViewContactInteractions,
      Permissions.CanAddContactInteractions; simpl;
    rewrite ?andb_true_iff; intros; destruct_and?; split_and?; by apply Hperms.
Qed.

End permissions.

End further_properties.

(** Instances on the sample data. *)
Section further_samples.
#[local] Existing Instance Sample.caseless.

(** ** Instances *)

Lemma unique_identity_list d :
  Forall (λ x, Forall (λ y, Contact.organizer x.2 = Contact.organizer y.2 →
                            Contact.email x.2 = Contact.email y.2 → x.1 = y.1)
                      (map_to_list (contacts d)))
         (map_to_list (contacts d)) →
  unique_identity d.
Proof.
  intros Hall k1 k2 c1 c2 H1%elem_of_map_to_list H2%elem_of_map_to_list Ho He.
  rewrite Forall_forall in Hall. specialize (Hall _ H1).
  rewrite Forall_forall in Hall. by apply (Hall _ H2).
Defined.

Lemma address_book_identity : unique_identity Sample.address_book.
Proof. apply unique_identity_list. apply (bool_decide_unpack _). vm_compute. exact I. Defined.


(** X3 on two rows for the same new email, the second an update. *)
Lemma import_of_accepted_rows_counts_them_witness :
  ∃ created updated skipped,
    (process_contact_import 1 [Sample.a_row; Sample.a2_row] true true
       (Sample.up Sample.empty_book)).2 !! "status" = Some (VStr "success")
    ∧ (process_contact_import 1 [Sample.a_row; Sample.a2_row] true true
         (Sample.up Sample.empty_book)).2 !! "created_count" = Some (VInt created)
    ∧ (created + updated + skipped = 2)%Z.
Proof.
  destruct (import_of_accepted_rows_counts_them 1 [Sample.a_row; Sample.a2_row] true true
              (Sample.up Sample.empty_book))
    as (created & updated & skipped & Hres & _ & _ & Hsum);
    [by_computation | reflexivity | by_computation
    | repeat (constructor; [by eexists|]); constructor |].
  exists created, updated, skipped. rewrite Hres.
  split; [reflexivity|]. split; [reflexivity|]. exact (Hsum eq_refl).
Defined.

(** X4 on a batch whose second row has an email without [@]. *)
Lemma import_with_rejected_row_fails_witness :
  (process_contact_import 1 [Sample.a_row; Sample.bad_row; Sample.a2_row] true true
     (Sample.up Sample.empty_book)).2
  = error_result "Error importing contacts: name 'row_num' is not defined".
Proof.
  apply import_with_rejected_row_fails;
    [by_computation | reflexivity | apply Exists_cons_tl, Exists_cons_hd; reflexivity].
Defined.

(** X5 on organizer 2, who does not exist. *)
Lemma import_for_unknown_organizer_witness :
  db (process_contact_import 2 [Sample.a_row] true false (Sample.up Sample.address_book)).1
  = Sample.address_book
  ∧ (process_contact_import 2 [Sample.a_row] true false (Sample.up Sample.address_book)).2
    = error_result "Organizer 2 not found".
Proof.
  destruct (import_for_unknown_organizer 2 [Sample.a_row] true false
              (Sample.up Sample.address_book)) as (Hdb & _ & Hres); [by_computation|].
  exact (conj Hdb (Hres eq_refl)).
Defined.

(** X6 on a batch of a new contact and one that is there. *)
Lemma import_again_changes_nothing_witness :
  (process_contact_import 1 [Sample.a_row; Sample.ann_row] true false
     (process_contact_import 1 [Sample.a_row; Sample.ann_row] true false
        (Sample.up Sample.address_book)).1).2 !! "skipped_count" = Some (VInt 2)
  ∧ db (process_contact_import 1 [Sample.a_row; Sample.ann_row] true false
          (process_contact_import 1 [Sample.a_row; Sample.ann_row] true false
             (Sample.up Sample.address_book)).1).1
    = db (process_contact_import 1 [Sample.a_row; Sample.ann_row] true false
            (Sample.up Sample.address_book)).1.
Proof.
  destruct (import_again_changes_nothing 1 [Sample.a_row; Sample.ann_row] true true
              (Sample.up Sample.address_book)) as [Hdb Hres];
    [by_computation | reflexivity |].
  split; [|exact Hdb].
  rewrite Hres; [reflexivity|by_computation|].
  repeat (constructor; [by eexists|]); constructor.
Defined.

(** X8 on the sample address book and a batch with a new email twice. *)
Lemma import_keeps_identity_unique_witness :
  unique_identity
    (db (process_contact_import 1 [Sample.a_row; Sample.a2_row] false false
           (Sample.up Sample.address_book)).1).
Proof. apply import_keeps_identity_unique, address_book_identity. Defined.

(** X9 on [ann], tagged vip, and [bob], tagged vip and gold. *)
Lemma merge_unions_tags_witness :
  ∃ saved,
    contacts (db (merge_contact_data 1 [2; 99] (Sample.up Sample.address_book)).1) !! 1
    = Some saved
    ∧ "gold" ∈ Contact.tags saved
    ∧ Contact.email saved = "ann@x.com".
Proof.
  destruct (merge_unions_tags 1 [2; 99] Sample.ann (Sample.up Sample.address_book))
    as (saved & Hsaved & Htags & _ & He & _); [reflexivity | reflexivity | by_computation |].
  exists saved. split; [exact Hsaved|]. split; [|exact He].
  apply Htags. right. exists 2, Sample.bob.
  split; [by_computation|]. split; [reflexivity|by_computation].
Defined.

(** X10 on [ann] and [bob], who both have notes. *)
Lemma merge_keeps_all_notes_witness :
  ∃ saved,
    contacts (db (merge_contact_data 1 [2; 99] (Sample.up Sample.address_book)).1) !! 1
    = Some saved
    ∧ Py.startswith "met at the expo" (Py.or_empty (Contact.notes saved)) = true
    ∧ Py.substring_of "prefers email" (Py.or_empty (Contact.notes saved)) = true.
Proof.
  destruct (merge_keeps_all_notes 1 [2; 99] Sample.ann (Sample.up Sample.address_book))
    as (saved & Hsaved & Hpre & Hsub); [reflexivity | reflexivity | by_computation |].
  exists saved. split; [exact Hsaved|]. split; [exact Hpre|].
  apply (Hsub 2 Sample.bob); [by_computation | reflexivity | reflexivity].
Defined.

(** X11 on [ann] merged into herself. *)
Lemma merge_into_itself_deletes_primary_witness :
  (merge_contact_data 1 [1; 2] (Sample.up Sample.address_book)).2 !! "status"
  = Some (VStr "success")
  ∧ contacts (db (merge_contact_data 1 [1; 2] (Sample.up Sample.address_book)).1) !! 1 = None.
Proof.
  apply (merge_into_itself_deletes_primary 1 [1; 2] Sample.ann);
    [reflexivity | reflexivity | by_computation].
Defined.

(** X12 on [bob] and [cy] merged into [ann] twice. *)
Lemma merge_again_changes_nothing_witness :
  db (merge_contact_data 1 [2; 3]
        (merge_contact_data 1 [2; 3] (Sample.up Sample.address_book)).1).1
  = db (merge_contact_data 1 [2; 3] (Sample.up Sample.address_book)).1
  ∧ (merge_contact_data 1 [2; 3]
       (merge_contact_data 1 [2; 3] (Sample.up Sample.address_book)).1).2 !! "status"
    = Some (VStr "success").
Proof.
  apply (merge_again_changes_nothing 1 [2; 3] Sample.ann);
    [reflexivity | reflexivity | by_computation].
Defined.

(** X13 on [ann], who has two confirmed bookings, the later at 200. *)
Lemma update_stats_counts_confirmed_bookings_witness :
  ∃ saved,
    contacts (db (update_single_contact_booking_stats 1 (Sample.up Sample.address_book)).1) !! 1
    = Some saved
    ∧ Contact.total_bookings saved = 2%Z
    ∧ Contact.company saved = Some "Acme".
Proof.
  destruct (update_stats_counts_confirmed_bookings 1 Sample.ann (Sample.up Sample.address_book))
    as (_ & _ & (saved & Hsaved & Hprofile & Htotal & _) & _); [reflexivity | reflexivity |].
  exists saved. split; [exact Hsaved|]. split; [exact Htotal|].
  destruct Hprofile as (_ & _ & _ & _ & _ & Hcompany & _). exact Hcompany.
Defined.

(** X14 on [ann]. *)
Lemma update_stats_twice_witness :
  db (update_single_contact_booking_stats 1
        (update_single_contact_booking_stats 1 (Sample.up Sample.address_book)).1).1
  = db (update_single_contact_booking_stats 1 (Sample.up Sample.address_book)).1.
Proof.
  destruct (update_stats_twice 1 (Sample.up Sample.address_book)) as [Hdb _];
    [reflexivity | exact Hdb].
Defined.

(** X15 on contact 7, who does not exist. *)
Lemma update_stats_of_unknown_contact_witness :
  db (update_single_contact_booking_stats 7 (Sample.up Sample.address_book)).1
  = Sample.address_book
  ∧ (update_single_contact_booking_stats 7 (Sample.up Sample.address_book)).2
    = error_result "Contact 7 not found".
Proof.
  destruct (update_stats_of_unknown_contact 7 (Sample.up Sample.address_book))
    as (Hdb & _ & Hres); [reflexivity|].
  exact (conj Hdb (Hres eq_refl)).
Defined.

(** X16 on the sample address book: [bob] has no confirmed booking and a
    total of 3, and loses both. *)
Lemma sweep_recounts_every_contact_witness :
  ∃ w' result c',
    update_contact_booking_stats (Sample.up Sample.address_book) = (w', inr result)
    ∧ contacts (db w') !! 2 = Some c'
    ∧ Contact.total_bookings c' = 0%Z
    ∧ Contact.last_booking_date c' = None
    ∧ Contact.email c' = "bob@x.com".
Proof.
  destruct (sweep_recounts_every_contact (Sample.up Sample.address_book) eq_refl)
    as (w' & result & Hrun & _ & _ & _ & Hall).
  destruct (Hall 2 Sample.bob eq_refl)
    as (c' & Hc' & (_ & _ & _ & He & _) & Htotal & _ & _ & Hlast).
  exists w', result, c'. split; [exact Hrun|]. split; [exact Hc'|].
  split; [exact Htotal|]. split; [|exact He].
  apply Hlast; [reflexivity|discriminate].
Defined.

(** X17 on the sample address book. *)
Lemma sweep_counts_changed_contacts_witness :
  ∃ w' result,
    update_contact_booking_stats (Sample.up Sample.address_book) = (w', inr result)
    ∧ result !! "updated_count"
      = Some (VInt (len (filter (λ x, contacts (db w') !! x.1 ≠ Some x.2)
                           (map_to_list (contacts Sample.address_book))))).
Proof. exact (sweep_counts_changed_contacts (Sample.up Sample.address_book) eq_refl). Defined.

(** X18 on the sample address book. *)
Lemma sweep_again_changes_nothing_witness :
  ∃ w' result w'' result',
    update_contact_booking_stats (Sample.up Sample.address_book) = (w', inr result)
    ∧ update_contact_booking_stats w' = (w'', inr result')
    ∧ db w'' = db w'
    ∧ result' !! "updated_count" = Some (VInt 0).
Proof. exact (sweep_again_changes_nothing (Sample.up Sample.address_book) eq_refl). Defined.

(** X19 on a name of three words with a space in front. *)
Lemma parse_name_cuts_at_first_space_witness :
  Py.strip " Ann Lee Fox" = "Ann" +:+ " " +:+ "Lee Fox".
Proof.
  pose proof (parse_name_cuts_at_first_space " Ann Lee Fox") as H.
  cbv beta iota delta [parse_name] in H.
  change (Py.nonempty " Ann Lee Fox") with true in H.
  change (Py.split1 " " (Py.strip " Ann Lee Fox")) with ["Ann"; "Lee Fox"] in H.
  cbv beta iota in H. destruct H as (_ & _ & H).
  exact (H ltac:(discriminate)).
Defined.

(** X20 on booking 11 of [ann]. *)
Lemma upsert_of_existing_contact_witness :
  ∃ saved,
    contacts (db (create_contact_from_booking 11 (Sample.up Sample.address_book)).1) !! 1
    = Some saved
    ∧ Contact.first_name saved = Some "Ann"
    ∧ Contact.last_booking_date saved = Some 100%Z.
Proof.
  destruct (upsert_of_existing_contact 11 Sample.booking11 1 Sample.ann
              (Sample.up Sample.address_book))
    as (_ & _ & (saved & Hsaved & Hprofile & _ & Hlast) & _);
    [reflexivity | apply address_book_identity | reflexivity | reflexivity
     | reflexivity | reflexivity |].
  exists saved. split; [exact Hsaved|]. split; [|exact Hlast].
  destruct Hprofile as (_ & Hfirst & _). exact Hfirst.
Defined.

(** X21 on booking 12, of an invitee who is no contact yet. *)
Lemma upsert_of_new_contact_witness :
  ∃ k created,
    contacts (db (create_contact_from_booking 12 (Sample.up Sample.empty_book)).1) !! k
    = Some created
    ∧ Contact.email created = "Dee@X.COM"
    ∧ Contact.first_name created = Some (parse_name "Dee Fox").1.
Proof.
  destruct (upsert_of_new_contact 12 Sample.booking12 (Sample.up Sample.empty_book))
    as (_ & _ & k & created & _ & Hcreated & _ & He & Hf & _);
    [reflexivity | reflexivity | |].
  - intros (k & c & Hk & _). discriminate Hk.
  - exists k, created. split; [exact Hcreated|]. split; [exact He|exact Hf].
Defined.

(** X22 on booking 99, which does not exist. *)
Lemma upsert_for_unknown_booking_witness :
  db (create_contact_from_booking 99 (Sample.up Sample.address_book)).1 = Sample.address_book
  ∧ (create_contact_from_booking 99 (Sample.up Sample.address_book)).2
    = error_result "Booking 99 not found".
Proof.
  destruct (upsert_for_unknown_booking 99 (Sample.up Sample.address_book))
    as (Hdb & _ & Hres); [reflexivity|].
  exact (conj Hdb (Hres eq_refl)).
Defined.

(** X23 on booking 11 and the sample address book. *)
Lemma upsert_keeps_identity_unique_witness :
  unique_identity (db (create_contact_from_booking 11 (Sample.up Sample.address_book)).1).
Proof.
  apply upsert_keeps_identity_unique; [reflexivity|apply address_book_identity].
Defined.

(** X26 on an editor and an admin, who has the permissions of the editor
    and one more. *)
Lemma permission_classes_monotone_witness :
  Permissions.CanManageContacts (list string) Staff.has_perm unit
    (Permissions.mkRequest _ Staff.admin) tt = true.
Proof.
  apply (permission_classes_monotone Staff.has_perm
           (Permissions.CanManageContacts (list string) Staff.has_perm unit)
           Staff.editor Staff.admin tt tt).
  - do 4 apply list_elem_of_further. apply list_elem_of_here.
  - intros perm Hp. apply bool_decide_eq_true. apply bool_decide_eq_true in Hp.
    by apply list_elem_of_further.
  - reflexivity.
Defined.

(** X27 on [ann], who has confirmed bookings. *)
Lemma sweep_agrees_with_single_update_witness :
  contacts (db (update_contact_booking_stats (Sample.up Sample.address_book)).1) !! 1
  = contacts (db (update_single_contact_booking_stats 1 (Sample.up Sample.address_book)).1) !! 1.
Proof.
  apply (sweep_agrees_with_single_update 1 Sample.ann); [reflexivity | reflexivity |].
  right. left. discriminate.
Defined.

(** X1 on the merge of [bob] into [ann]. *)
Lemma merge_touches_primary_and_duplicates_only_witness :
  merge_frame 1 [2] Sample.address_book
    (db (merge_contact_data 1 [2] (Sample.up Sample.address_book)).1).
Proof.
  apply (merge_touches_primary_and_duplicates_only 1 [2] (Sample.up Sample.address_book)).
  by_computation.
Defined.

End further_samples.
